(** * ClashChat backend: presence registry, event router and stores

    A shallow embedding of the real-time core of the ClashChat backend
    (socket/socketHandler.ts, controllers/messageController.ts,
    controllers/friendController.ts, models/Friendship.ts,
    models/Message.ts) and the properties of it that the design
    document states.

    Conventions of the embedding:
    - the process-local [onlineUsers] map is a [gmap string string]
      (identity to socket id), exactly the [Map<string, string>] of the
      source;
    - the three collections are lists of documents in insertion order, so
      that [findOne] returns the first match in natural order;
    - a handler is a computation in a small state-and-exception monad: the
      state is the world, the list of store failures still to come and the
      events emitted so far; every [await] of a store call is a point where
      the call may throw;
    - one operation (a socket event or an HTTP request) runs to completion
      before the next one starts; the handlers that the interleaving of two
      operations is studied on are also given as programs suspended at
      their awaits. *)

From Stdlib Require Import Ascii.
From stdpp Require Import base strings list gmap.

Local Open Scope string_scope.
Local Open Scope list_scope.

(** ** JavaScript primitives used by the handlers *)
Module Js.

(** Truthiness of a string: only the empty string is falsy. *)
Definition truthy (s : string) : bool :=
  match s with
  | EmptyString => false
  | String _ _ => true
  end.

(** Truthiness of a possibly [undefined] string. *)
Definition truthy_opt (o : option string) : bool :=
  match o with
  | Some s => truthy s
  | None => false
  end.

(** [a || b] on possibly undefined strings. *)
Definition or (a b : option string) : option string :=
  if truthy_opt a then a else b.

(** [s.split(sep)] for a one-character separator. *)
Fixpoint split (sep : ascii) (s : string) : list string :=
  match s with
  | EmptyString => [EmptyString]
  | String c r =>
      if Ascii.eqb c sep then EmptyString :: split sep r
      else match split sep r with
           | p :: ps => String c p :: ps
           | [] => [String c EmptyString]
           end
  end.

(** *** [String.prototype.trim]

    A string of the model is a sequence of bytes: the UTF-8 encoding of the
    JavaScript string, as the string literals of Rocq are. Equality,
    emptiness and the split at a space read the same on the bytes as on the
    JavaScript string; trimming looks at code points. *)

(** The code points [trim] strips, WhiteSpace and LineTerminator of
    ECMA-262: TAB, LF, VT, FF, CR, the space, the no-break space U+00A0,
    U+1680, U+2000 to U+200A, the line and paragraph separators U+2028 and
    U+2029, U+202F, U+205F, U+3000 and the byte order mark U+FEFF. *)
Definition isWhiteSpace (cp : N) : bool :=
  ((9 <=? cp) && (cp <=? 13) || (cp =? 32) || (cp =? 160) || (cp =? 5760)
   || (8192 <=? cp) && (cp <=? 8202) || (cp =? 8232) || (cp =? 8233)
   || (cp =? 8239) || (cp =? 8287) || (cp =? 12288) || (cp =? 65279))%N.

(** The bytes 10xxxxxx that continue a sequence. *)
Definition continuation (b : N) : bool := ((128 <=? b) && (b <? 192))%N.

(** The code point of a sequence of two bytes 110xxxxx 10xxxxxx and of a
    sequence of three bytes 1110xxxx 10xxxxxx 10xxxxxx, when the bytes form
    such a sequence in its shortest form. *)
Definition code_point2 (a b : N) : option N :=
  let cp := ((a - 192) * 64 + (b - 128))%N in
  if ((192 <=? a) && (a <? 224))%N && continuation b && (128 <=? cp)%N
  then Some cp else None.

Definition code_point3 (a b c : N) : option N :=
  let cp := ((a - 224) * 4096 + (b - 128) * 64 + (c - 128))%N in
  if ((224 <=? a) && (a <? 240))%N && continuation b && continuation c
     && (2048 <=? cp)%N
  then Some cp else None.

(** The code point a string starts with, and the rest of the string. All
    white space is encoded on one to three bytes; a longer sequence, or
    bytes that form no sequence, give nothing. *)
Definition first_code_point (s : string) : option (N * string) :=
  match s with
  | EmptyString => None
  | String a r =>
      if (N_of_ascii a <? 128)%N then Some (N_of_ascii a, r)
      else
        match r with
        | EmptyString => None
        | String b r2 =>
            match code_point2 (N_of_ascii a) (N_of_ascii b) with
            | Some cp => Some (cp, r2)
            | None =>
                match r2 with
                | EmptyString => None
                | String c r3 =>
                    match code_point3 (N_of_ascii a) (N_of_ascii b) (N_of_ascii c) with
                    | Some cp => Some (cp, r3)
                    | None => None
                    end
                end
            end
        end
  end.

(** The code point a string ends with and what precedes it, read on the
    string reversed. *)
Definition last_code_point (reversed : string) : option (N * string) :=
  match reversed with
  | EmptyString => None
  | String c r =>
      if (N_of_ascii c <? 128)%N then Some (N_of_ascii c, r)
      else
        match r with
        | EmptyString => None
        | String b r2 =>
            match code_point2 (N_of_ascii b) (N_of_ascii c) with
            | Some cp => Some (cp, r2)
            | None =>
                match r2 with
                | EmptyString => None
                | String a r3 =>
                    match code_point3 (N_of_ascii a) (N_of_ascii b) (N_of_ascii c) with
                    | Some cp => Some (cp, r3)
                    | None => None
                    end
                end
            end
        end
  end.

(** Drops white space as long as [next] finds some, at most [n] times. *)
Fixpoint strip (next : string → option (N * string)) (n : nat) (s : string) : string :=
  match n with
  | 0 => s
  | S n =>
      match next s with
      | Some (cp, r) => if isWhiteSpace cp then strip next n r else s
      | None => s
      end
  end.

(** Each white space holds a byte at least, so that the length of the
    string bounds the number of rounds. *)
Definition trimStart (s : string) : string :=
  strip first_code_point (String.length s) s.

Definition reverse (s : string) : string :=
  String.string_of_list_ascii (List.rev (String.list_ascii_of_string s)).

Definition trimEnd (s : string) : string :=
  reverse (strip last_code_point (String.length s) (reverse s)).

Definition trim (s : string) : string := trimEnd (trimStart s).

End Js.

(** ** Generic collection helpers (first match in natural order) *)

Section Collection.
Context {A : Type}.

(** Replace the first document satisfying [p] by its image under [f]. *)
Fixpoint update_first (p : A → bool) (f : A → A) (l : list A) : list A :=
  match l with
  | [] => []
  | x :: r => if p x then f x :: r else x :: update_first p f r
  end.

(** Remove the first document satisfying [p]. *)
Fixpoint remove_first (p : A → bool) (l : list A) : list A :=
  match l with
  | [] => []
  | x :: r => if p x then r else x :: remove_first p r
  end.

(** Replace every document satisfying [p] by its image under [f]. *)
Definition update_all (p : A → bool) (f : A → A) (l : list A) : list A :=
  List.map (λ x, if p x then f x else x) l.

(** Insertion into a list kept in descending order of [key], before the
    documents of the same key. *)
Fixpoint insert_desc (key : A → nat) (x : A) (l : list A) : list A :=
  match l with
  | [] => [x]
  | y :: r => if Nat.leb (key y) (key x) then x :: y :: r
              else y :: insert_desc key x r
  end.

(** Sort in descending order of [key]; documents of the same key keep their
    order. *)
Definition sort_desc (key : A → nat) (l : list A) : list A :=
  List.fold_right (insert_desc key) [] l.
End Collection.

(** ** Documents and collections *)

Module User.
Inductive Status := online | offline | away.

Record t := mk {
  _id : string;
  username : string;
  status : Status;
  lastSeen : nat
}.

(** The update document of [findByIdAndUpdate]: the status, and the
    last-seen time when it is given. *)
Definition set (st : Status) (seen : option nat) (u : t) : t :=
  mk (_id u) (username u) st (default (lastSeen u) seen).

Definition findById (id : string) (us : list t) : option t :=
  List.find (λ u, bool_decide (_id u = id)) us.

Definition findByIdAndUpdate (id : string) (st : Status) (seen : option nat)
    (us : list t) : list t :=
  update_first (λ u, bool_decide (_id u = id)) (set st seen) us.
End User.

Module Friendship.
Inductive Status := pending | accepted | rejected | blocked.

#[global] Instance Status_eq_dec : EqDecision Status.
Proof. solve_decision. Defined.

Record t := mk {
  _id : string;
  requester : string;
  recipient : string;
  status : Status
}.

Definition set_status (st : Status) (f : t) : t :=
  mk (_id f) (requester f) (recipient f) st.

(** [{ requester: a, recipient: b }]. *)
Definition directed (a b : string) (f : t) : bool :=
  bool_decide (requester f = a) && bool_decide (recipient f = b).

(** [{ $or: [{ requester: a, recipient: b }, { requester: b, recipient: a }] }]. *)
Definition between (a b : string) (f : t) : bool :=
  directed a b f || directed b a f.

(** [{ $or: [{ requester: u }, { recipient: u }] }]. *)
Definition involves (u : string) (f : t) : bool :=
  bool_decide (requester f = u) || bool_decide (recipient f = u).

Definition has_status (st : Status) (f : t) : bool :=
  bool_decide (status f = st).

Definition has_id (id : string) (f : t) : bool := bool_decide (_id f = id).

Definition findOne (q : t → bool) (fs : list t) : option t := List.find q fs.

Definition find (q : t → bool) (fs : list t) : list t := List.filter q fs.

(** [friendshipSchema.index({ requester: 1, recipient: 1 }, { unique: true })]:
    an insertion is refused when a document with the same requester and
    the same recipient, in this order, is already stored. The primary key
    [_id] is unique as in every collection. *)
Definition create (f : t) (fs : list t) : option (list t) :=
  if existsb (directed (requester f) (recipient f)) fs then None
  else if existsb (has_id (_id f)) fs then None
  else Some (fs ++ [f]).

(** [doc.save()] after [doc.status = st]. *)
Definition save_status (id : string) (st : Status) (fs : list t) : list t :=
  update_first (has_id id) (set_status st) fs.

Definition deleteOne (q : t → bool) (fs : list t) : list t := remove_first q fs.
End Friendship.

Module Message.
Inductive MessageType := text | image | file.
Inductive Status := sent | delivered | read.

#[global] Instance Status_eq_dec : EqDecision Status.
Proof. solve_decision. Defined.

Record t := mk {
  _id : string;
  sender : string;
  receiver : string;
  content : string;
  messageType : MessageType;
  status : Status;
  createdAt : nat
}.

Definition set_status (st : Status) (m : t) : t :=
  mk (_id m) (sender m) (receiver m) (content m) (messageType m) st (createdAt m).

(** Position of a status in the order sent, delivered, read. *)
Definition rank (st : Status) : nat :=
  match st with
  | sent => 0
  | delivered => 1
  | read => 2
  end.

Definition has_id (id : string) (m : t) : bool := bool_decide (_id m = id).

(** [{ sender: a, receiver: b }]. *)
Definition directed (a b : string) (m : t) : bool :=
  bool_decide (sender m = a) && bool_decide (receiver m = b).

Definition between (a b : string) (m : t) : bool :=
  directed a b m || directed b a m.

(** [{ sender: a, receiver: b, status: { $ne: 'read' } }]. *)
Definition unread_from (a b : string) (m : t) : bool :=
  directed a b m && negb (bool_decide (status m = read)).

(** [Message.create]: the schema trims the content and requires it to be
    non-empty; the document is stored under the fresh [_id] with the
    creation time. *)
Definition create (id sender receiver content : string) (ty : MessageType)
    (st : Status) (now : nat) (ms : list t) : option (t * list t) :=
  let doc := mk id sender receiver (Js.trim content) ty st now in
  if negb (Js.truthy (Js.trim content)) then None
  else if existsb (has_id id) ms then None
  else Some (doc, ms ++ [doc]).

Definition findById (id : string) (ms : list t) : option t :=
  List.find (has_id id) ms.

(** [doc.save()] after [doc.status = st]. *)
Definition save_status (id : string) (st : Status) (ms : list t) : list t :=
  update_first (has_id id) (set_status st) ms.

(** [updateMany(q, { status: st })], with the number of modified documents. *)
Definition updateMany (q : t → bool) (st : Status) (ms : list t) : nat * list t :=
  (length (List.filter q ms), update_all q (set_status st) ms).

(** [find(q).sort({ createdAt: -1 }).limit(l).skip(s)]: the query skips
    first and limits afterwards whatever the order of the calls, and a
    limit of 0 means no limit. *)
Definition find_page (q : t → bool) (l s : nat) (ms : list t) : list t :=
  let sorted := sort_desc createdAt (List.filter q ms) in
  let skipped := drop s sorted in
  match l with
  | 0 => skipped
  | _ => take l skipped
  end.
End Message.

(** ** Outbound events *)

Module Event.
Inductive t :=
| user_online (userId : string)
| user_offline (userId : string)
| receive_message (message : Message.t)
| message_sent (message : Message.t)
| typing (userId : string)
| stop_typing (userId : string)
| message_read (messageId : string)
| error (message : string).
End Event.

(** An event pushed to the connection with socket id [to]: [socket.emit]
    addresses the handler's own socket, [io.to(id).emit] the socket [id]. *)
Record Emission := mkEmission { to : string; event : Event.t }.

(** ** The world *)

(** What the handlers installed by one connection capture: the identity of
    the connection and the friend list computed when it connected. *)
Record Closure := mkClosure { userId : string; friendIds : list string }.

Record World := mkWorld {
  onlineUsers : gmap string string;
  listeners : gmap string Closure;
  users : list User.t;
  friendships : list Friendship.t;
  messages : list Message.t
}.

Definition with_onlineUsers (f : gmap string string → gmap string string)
    (w : World) : World :=
  mkWorld (f (onlineUsers w)) (listeners w) (users w) (friendships w) (messages w).

Definition with_listeners (f : gmap string Closure → gmap string Closure)
    (w : World) : World :=
  mkWorld (onlineUsers w) (f (listeners w)) (users w) (friendships w) (messages w).

Definition with_users (us : list User.t) (w : World) : World :=
  mkWorld (onlineUsers w) (listeners w) us (friendships w) (messages w).

Definition with_friendships (fs : list Friendship.t) (w : World) : World :=
  mkWorld (onlineUsers w) (listeners w) (users w) fs (messages w).

Definition with_messages (ms : list Message.t) (w : World) : World :=
  mkWorld (onlineUsers w) (listeners w) (users w) (friendships w) ms.

(** ** Handlers as computations *)

Inductive Outcome (A : Type) :=
| Returned (a : A)
| Thrown (e : string).
Arguments Returned {A} a.
Arguments Thrown {A} e.

(** The state of a running handler: the world, the failures the store will
    raise at the coming awaits ([Some e] makes the next store call throw an
    error with message [e], [None] lets it through; past the end of the list
    every call goes through), and the events emitted so far. *)
Record Run := mkRun {
  world : World;
  faults : list (option string);
  emitted : list Emission
}.

Definition Handler (A : Type) : Type := Run → Outcome A * Run.

#[global] Instance Handler_ret : MRet Handler := λ A a r, (Returned a, r).

#[global] Instance Handler_bind : MBind Handler := λ A B k m r,
  match m r with
  | (Returned a, r') => k a r'
  | (Thrown e, r') => (Thrown e, r')
  end.

(** [try { body } catch (error) { handler error }]. *)
Definition try_catch {A} (body : Handler A) (handler : string → Handler A) : Handler A :=
  λ r, match body r with
       | (Returned a, r') => (Returned a, r')
       | (Thrown e, r') => handler e r'
       end.

(** A store call: it answers, possibly changing the collections, or it
    refuses (duplicate key, failed validation). *)
Definition StoreCall (A : Type) : Type := World → Outcome (A * World).

(** [await call]: a suspension point at which the store may fail. *)
Definition await {A} (call : StoreCall A) : Handler A :=
  λ r, match faults r with
       | Some e :: rest => (Thrown e, mkRun (world r) rest (emitted r))
       | plan =>
           match call (world r) with
           | Returned (a, w) => (Returned a, mkRun w (tail plan) (emitted r))
           | Thrown e => (Thrown e, mkRun (world r) (tail plan) (emitted r))
           end
       end.

(** Synchronous access to the process-local state. *)
Definition get_world : Handler World := λ r, (Returned (world r), r).

Definition modify_world (f : World → World) : Handler unit :=
  λ r, (Returned (), mkRun (f (world r)) (faults r) (emitted r)).

Definition emit (dest : string) (ev : Event.t) : Handler unit :=
  λ r, (Returned (), mkRun (world r) (faults r) (emitted r ++ [mkEmission dest ev])).

Fixpoint forEach {A} (l : list A) (body : A → Handler unit) : Handler unit :=
  match l with
  | [] => mret ()
  | x :: rest => body x;; forEach rest body
  end.

(** *** The store calls of the handlers *)

Module Db.
Definition Friendship_findOne (q : Friendship.t → bool) : StoreCall (option Friendship.t) :=
  λ w, Returned (Friendship.findOne q (friendships w), w).

Definition Friendship_find (q : Friendship.t → bool) : StoreCall (list Friendship.t) :=
  λ w, Returned (Friendship.find q (friendships w), w).

Definition Friendship_create (f : Friendship.t) : StoreCall Friendship.t :=
  λ w, match Friendship.create f (friendships w) with
       | Some fs => Returned (f, with_friendships fs w)
       | None => Thrown "E11000 duplicate key error"
       end.

Definition Friendship_save (id : string) (st : Friendship.Status) : StoreCall unit :=
  λ w, Returned ((), with_friendships (Friendship.save_status id st (friendships w)) w).

Definition Friendship_deleteOne (q : Friendship.t → bool) : StoreCall unit :=
  λ w, Returned ((), with_friendships (Friendship.deleteOne q (friendships w)) w).

Definition Friendship_findOneAndDelete (q : Friendship.t → bool)
    : StoreCall (option Friendship.t) :=
  λ w, Returned (Friendship.findOne q (friendships w),
                 with_friendships (Friendship.deleteOne q (friendships w)) w).

Definition Message_create (id sender receiver content : string)
    (ty : Message.MessageType) (st : Message.Status) (now : nat) : StoreCall Message.t :=
  λ w, match Message.create id sender receiver content ty st now (messages w) with
       | Some (doc, ms) => Returned (doc, with_messages ms w)
       | None => Thrown "Message validation failed"
       end.

Definition Message_findById (id : string) : StoreCall (option Message.t) :=
  λ w, Returned (Message.findById id (messages w), w).

Definition Message_save (id : string) (st : Message.Status) : StoreCall unit :=
  λ w, Returned ((), with_messages (Message.save_status id st (messages w)) w).

Definition Message_updateMany (q : Message.t → bool) (st : Message.Status) : StoreCall nat :=
  λ w, let '(n, ms) := Message.updateMany q st (messages w) in
       Returned (n, with_messages ms w).

Definition Message_find_page (q : Message.t → bool) (l s : nat) : StoreCall (list Message.t) :=
  λ w, Returned (Message.find_page q l s (messages w), w).

(** [doc.populate(paths, fields)]: a read of the user collection that
    fills display fields of the document; the events and responses of the
    model carry the document itself. *)
Definition populate : StoreCall unit := λ w, Returned ((), w).

Definition User_findById (id : string) : StoreCall (option User.t) :=
  λ w, Returned (User.findById id (users w), w).

Definition User_findByIdAndUpdate (id : string) (st : User.Status) (seen : option nat)
    : StoreCall unit :=
  λ w, Returned ((), with_users (User.findByIdAndUpdate id st seen (users w)) w).
End Db.

(** ** The socket layer (socket/socketHandler.ts) *)

Module Jwt.
Record TokenPayload := mk { userId : string; email : string }.
End Jwt.

Module Socket.

(** [socket.handshake.auth.token] and
    [socket.handshake.headers.authorization]. *)
Record Handshake := mkHandshake {
  auth_token : option string;
  authorization : option string
}.

(** What the authentication middleware hands to [next]: nothing, after
    recording the identity on the socket, or an error. *)
Inductive Admission :=
| next (userId : string)
| next_error (message : string).

Record SendMessageData := mkSendMessageData {
  receiverId : string;
  content : string;
  messageType : option Message.MessageType
}.

(** The events a client sends on an established connection, and the
    transport-level close. *)
Inductive Inbound :=
| send_message (data : SendMessageData)
| typing (receiverId : string)
| stop_typing (receiverId : string)
| message_read (messageId : string)
| disconnect.

(** [{ $or: [{requester: a, recipient: b}, {requester: b, recipient: a}],
       status: 'accepted' }]. *)
Definition accepted_between (a b : string) (f : Friendship.t) : bool :=
  Friendship.between a b f && Friendship.has_status Friendship.accepted f.

(** [{ $or: [{ requester: u }, { recipient: u }], status: 'accepted' }]. *)
Definition accepted_of (u : string) (f : Friendship.t) : bool :=
  Friendship.involves u f && Friendship.has_status Friendship.accepted f.

(** The counterpart of [userId] in a friendship. *)
Definition friendId (userId : string) (f : Friendship.t) : string :=
  if bool_decide (Friendship.requester f = userId) then Friendship.recipient f
  else Friendship.requester f.

(** [const s = onlineUsers.get(id); if (s) io.to(s).emit(ev)]. *)
Definition push_if_online (id : string) (ev : Event.t) : Handler unit :=
  w ← get_world;
  match onlineUsers w !! id with
  | Some socketId => if Js.truthy socketId then emit socketId ev else mret ()
  | None => mret ()
  end.

(** [socket.handshake.auth.token ||
     socket.handshake.headers.authorization?.split(' ')[1]]. *)
Definition token (h : Handshake) : option string :=
  Js.or (auth_token h)
        (authorization h ≫= λ header, Js.split " "%char header !! 1).

Section Middleware.
(** [verifyAccessToken] of utils/jwt: the payload of a token that
    verifies, nothing when verification throws. *)
Variable verifyAccessToken : string → option Jwt.TokenPayload.

(** [io.use(...)]. *)
Definition authenticate (h : Handshake) : Admission :=
  let token := token h in
  if negb (Js.truthy_opt token) then
    next_error "Authentication error: No token provided"
  else
    match token ≫= verifyAccessToken with
    | Some decoded => next (Jwt.userId decoded)
    | None => next_error "Authentication error: Invalid token"
    end.
End Middleware.

(** [io.on('connection', ...)] up to the installation of the listeners. *)
Definition on_connection (socket_id userId : string) : Handler unit :=
  if negb (Js.truthy userId) then mret ()
  else
    modify_world (with_onlineUsers (insert userId socket_id));;
    await (Db.User_findByIdAndUpdate userId User.online None);;
    friendships ← await (Db.Friendship_find (accepted_of userId));
    let friendIds := List.map (friendId userId) friendships in
    forEach friendIds (λ friend, push_if_online friend (Event.user_online userId));;
    modify_world (with_listeners (insert socket_id (mkClosure userId friendIds))).

Definition on_send_message (socket_id userId : string) (data : SendMessageData)
    (oid : string) (now : nat) : Handler unit :=
  try_catch
    (let receiverId := receiverId data in
     let content := content data in
     let messageType := default Message.text (messageType data) in
     friendship ← await (Db.Friendship_findOne (accepted_between userId receiverId));
     match friendship with
     | None => emit socket_id (Event.error "Not friends with this user")
     | Some _ =>
         message ← await (Db.Message_create oid userId receiverId content
                                            messageType Message.sent now);
         await Db.populate;;
         w ← get_world;
         message ←
           match onlineUsers w !! receiverId with
           | Some receiverSocketId =>
               if Js.truthy receiverSocketId then
                 let message := Message.set_status Message.delivered message in
                 await (Db.Message_save (Message._id message) Message.delivered);;
                 emit receiverSocketId (Event.receive_message message);;
                 mret message
               else mret message
           | None => mret message
           end;
         emit socket_id (Event.message_sent message)
     end)
    (λ _, emit socket_id (Event.error "Failed to send message")).

Definition on_typing (userId receiverId : string) : Handler unit :=
  push_if_online receiverId (Event.typing userId).

Definition on_stop_typing (userId receiverId : string) : Handler unit :=
  push_if_online receiverId (Event.stop_typing userId).

Definition on_message_read (userId messageId : string) : Handler unit :=
  try_catch
    (message ← await (Db.Message_findById messageId);
     match message with
     | Some message =>
         if bool_decide (Message.receiver message = userId) then
           await (Db.Message_save (Message._id message) Message.read);;
           push_if_online (Message.sender message) (Event.message_read messageId)
         else mret ()
     | None => mret ()
     end)
    (λ _, mret ()).

Definition on_disconnect (userId : string) (friendIds : list string) (now : nat)
    : Handler unit :=
  modify_world (with_onlineUsers (delete userId));;
  await (Db.User_findByIdAndUpdate userId User.offline (Some now));;
  forEach friendIds (λ friend, push_if_online friend (Event.user_offline userId)).

(** A connection attempt: the middleware, then the connection handler. *)
Definition connect (verifyAccessToken : string → option Jwt.TokenPayload)
    (h : Handshake) (socket_id : string) : Handler Admission :=
  match authenticate verifyAccessToken h with
  | next userId => on_connection socket_id userId;; mret (next userId)
  | next_error e => mret (next_error e)
  end.

(** An inbound event on the connection [socket_id]: it reaches the
    listener that the connection installed, with the identity and the
    friend list captured at that time; a connection without listeners
    ignores it. A closed connection has no listeners any more. *)
Definition receive (socket_id : string) (ev : Inbound) (oid : string) (now : nat)
    : Handler unit :=
  w ← get_world;
  match listeners w !! socket_id with
  | None => mret ()
  | Some c =>
      match ev with
      | send_message data => on_send_message socket_id (userId c) data oid now
      | typing receiverId => on_typing (userId c) receiverId
      | stop_typing receiverId => on_stop_typing (userId c) receiverId
      | message_read messageId => on_message_read (userId c) messageId
      | disconnect =>
          modify_world (with_listeners (delete socket_id));;
          on_disconnect (userId c) (friendIds c) now
      end
  end.
End Socket.

(** ** The HTTP controllers *)

Module Http.

(** The payload of a successful response. *)
Inductive Data :=
| no_data
| history (messages : list Message.t) (unreadCount : nat)
| sent_message (message : Message.t)
| friendship_data (friendship : Friendship.t)
| note (message : string).

(** [sendSuccess(res, message, data, statusCode = 200)] and
    [sendError(res, message, error, statusCode)] of utils/response. *)
Inductive Response :=
| sendSuccess (message : string) (data : Data) (statusCode : nat)
| sendError (message error : string) (statusCode : nat).

Section Controllers.
(** [mongoose.Types.ObjectId.isValid]. *)
Variable isValid : string → bool.

(** *** controllers/messageController.ts *)

(** [limit] and [skip] are the query parameters, absent or numeric. *)
Definition getMessages (userId friendId : string) (limit skip : option nat)
    : Handler Response :=
  try_catch
    (let limit := default 50 limit in
     let skip := default 0 skip in
     if negb (isValid friendId) then
       mret (sendError "Invalid friend ID" "Please provide a valid friend ID" 400)
     else
       friendship ← await (Db.Friendship_findOne (Socket.accepted_between userId friendId));
       match friendship with
       | None =>
           mret (sendError "Not friends" "You can only view messages with friends" 403)
       | Some _ =>
           messages ← await (Db.Message_find_page (Message.between userId friendId)
                                                 limit skip);
           modifiedCount ← await (Db.Message_updateMany
                                    (Message.unread_from friendId userId) Message.read);
           mret (sendSuccess "Messages retrieved successfully"
                             (history (List.rev messages) modifiedCount) 200)
       end)
    (λ e, mret (sendError "Failed to retrieve messages" e 500)).

Definition sendMessage (senderId receiverId content : string)
    (messageType : option Message.MessageType) (oid : string) (now : nat)
    : Handler Response :=
  try_catch
    (let messageType := default Message.text messageType in
     if negb (Js.truthy receiverId) || negb (Js.truthy content) then
       mret (sendError "Missing required fields" "Receiver ID and content are required" 400)
     else if negb (isValid receiverId) then
       mret (sendError "Invalid receiver ID" "Please provide a valid receiver ID" 400)
     else
       friendship ← await (Db.Friendship_findOne (Socket.accepted_between senderId receiverId));
       match friendship with
       | None =>
           mret (sendError "Not friends" "You can only send messages to friends" 403)
       | Some _ =>
           message ← await (Db.Message_create oid senderId receiverId content
                                              messageType Message.sent now);
           await Db.populate;;
           mret (sendSuccess "Message sent successfully" (sent_message message) 201)
       end)
    (λ e, mret (sendError "Failed to send message" e 500)).

(** *** controllers/friendController.ts *)

Definition sendFriendRequest (requesterId recipientId oid : string) : Handler Response :=
  try_catch
    (if negb (Js.truthy recipientId) then
       mret (sendError "Recipient ID required" "Please provide recipient ID" 400)
     else if bool_decide (recipientId = requesterId) then
       mret (sendError "Invalid request" "Cannot send friend request to yourself" 400)
     else
       recipient ← await (Db.User_findById recipientId);
       match recipient with
       | None => mret (sendError "User not found" "Recipient does not exist" 404)
       | Some _ =>
           existingFriendship ←
             await (Db.Friendship_findOne (Friendship.between requesterId recipientId));
           let create :=
             friendship ← await (Db.Friendship_create
                                   (Friendship.mk oid requesterId recipientId
                                                  Friendship.pending));
             await Db.populate;;
             mret (sendSuccess "Friend request sent" (friendship_data friendship) 201) in
           match existingFriendship with
           | Some existing =>
               match Friendship.status existing with
               | Friendship.accepted =>
                   mret (sendError "Already friends"
                                   "You are already friends with this user" 400)
               | Friendship.pending =>
                   mret (sendError "Request pending" "Friend request already sent" 400)
               | _ => create
               end
           | None => create
           end
       end)
    (λ e, mret (sendError "Failed to send friend request" e 500)).

(** [{ _id: requestId, recipient: userId, status: 'pending' }]. *)
Definition pending_for (requestId userId : string) (f : Friendship.t) : bool :=
  Friendship.has_id requestId f && bool_decide (Friendship.recipient f = userId)
  && Friendship.has_status Friendship.pending f.

(** [{ _id: requestId, $or: [{ recipient: userId }, { requester: userId }],
       status: 'pending' }]. *)
Definition pending_of (requestId userId : string) (f : Friendship.t) : bool :=
  Friendship.has_id requestId f
  && (bool_decide (Friendship.recipient f = userId)
      || bool_decide (Friendship.requester f = userId))
  && Friendship.has_status Friendship.pending f.

Definition acceptFriendRequest (userId requestId : string) : Handler Response :=
  try_catch
    (if negb (isValid requestId) then
       mret (sendError "Invalid request ID" "Please provide a valid request ID" 400)
     else
       friendship ← await (Db.Friendship_findOne (pending_for requestId userId));
       match friendship with
       | None =>
           mret (sendError "Friend request not found"
                           "Request does not exist or already processed" 404)
       | Some friendship =>
           let friendship := Friendship.set_status Friendship.accepted friendship in
           await (Db.Friendship_save (Friendship._id friendship) Friendship.accepted);;
           await Db.populate;;
           mret (sendSuccess "Friend request accepted" (friendship_data friendship) 200)
       end)
    (λ e, mret (sendError "Failed to accept friend request" e 500)).

Definition rejectFriendRequest (userId requestId : string) : Handler Response :=
  try_catch
    (if negb (isValid requestId) then
       mret (sendError "Invalid request ID" "Please provide a valid request ID" 400)
     else
       friendship ← await (Db.Friendship_findOne (pending_of requestId userId));
       match friendship with
       | None =>
           mret (sendError "Friend request not found"
                           "Request does not exist or already processed" 404)
       | Some friendship =>
           let isRequester := bool_decide (Friendship.requester friendship = userId) in
           let action := if isRequester then "cancelled" else "rejected" in
           await (Db.Friendship_deleteOne (Friendship.has_id requestId));;
           mret (sendSuccess ("Friend request " +:+ action)
                   (note "Request deleted, user can send a new request if needed") 200)
       end)
    (λ e, mret (sendError "Failed to reject friend request" e 500)).

Definition removeFriend (userId friendId : string) : Handler Response :=
  try_catch
    (if negb (isValid friendId) then
       mret (sendError "Invalid friend ID" "Please provide a valid friend ID" 400)
     else
       friendship ← await (Db.Friendship_findOneAndDelete
                             (Socket.accepted_between userId friendId));
       match friendship with
       | None =>
           mret (sendError "Friendship not found"
                           "You are not friends with this user" 404)
       | Some _ => mret (sendSuccess "Friend removed successfully" no_data 200)
       end)
    (λ e, mret (sendError "Failed to remove friend" e 500)).

(** The earlier variant of the controller kept in the repository: a
    rejection keeps the document and marks it. *)
Definition rejectFriendRequest_marking (userId requestId : string) : Handler Response :=
  try_catch
    (if negb (isValid requestId) then
       mret (sendError "Invalid request ID" "Please provide a valid request ID" 400)
     else
       friendship ← await (Db.Friendship_findOne (pending_for requestId userId));
       match friendship with
       | None =>
           mret (sendError "Friend request not found"
                           "Request does not exist or already processed" 404)
       | Some friendship =>
           let friendship := Friendship.set_status Friendship.rejected friendship in
           await (Db.Friendship_save (Friendship._id friendship) Friendship.rejected);;
           await Db.populate;;
           mret (sendSuccess "Friend request rejected" (friendship_data friendship) 200)
       end)
    (λ e, mret (sendError "Failed to reject friend request" e 500)).
End Controllers.
End Http.

(** ** Operations and executions *)

(** The operations of the system: a connection attempt, an inbound event on
    a connection, and the requests of the message and friend routes on
    behalf of the authenticated [userId]. *)
Inductive Op :=
| socket_connect (h : Socket.Handshake) (socket_id : string)
| socket_event (socket_id : string) (ev : Socket.Inbound)
| http_getMessages (userId friendId : string) (limit skip : option nat)
| http_sendMessage (userId receiverId content : string)
                   (messageType : option Message.MessageType)
| http_sendFriendRequest (userId recipientId : string)
| http_acceptFriendRequest (userId requestId : string)
| http_rejectFriendRequest (userId requestId : string)
| http_removeFriend (userId friendId : string).

(** What the environment contributes to one operation: the clock, the
    identifier the driver generates for a new document, and the failures of
    the store during the operation. *)
Record Env := mkEnv {
  now : nat;
  oid : string;
  failures : list (option string)
}.

Definition no_failure (now : nat) (oid : string) : Env := mkEnv now oid [].

(** The libraries the server is linked with. *)
Record Lib := mkLib {
  verifyAccessToken : string → option Jwt.TokenPayload;
  isValid : string → bool
}.

Definition forget {A} (h : Handler A) : Handler unit := λ r, (Returned (), snd (h r)).

Definition handler_of (lib : Lib) (e : Env) (op : Op) : Handler unit :=
  match op with
  | socket_connect h socket_id =>
      forget (Socket.connect (verifyAccessToken lib) h socket_id)
  | socket_event socket_id ev => forget (Socket.receive socket_id ev (oid e) (now e))
  | http_getMessages userId friendId limit skip =>
      forget (Http.getMessages (isValid lib) userId friendId limit skip)
  | http_sendMessage userId receiverId content messageType =>
      forget (Http.sendMessage (isValid lib) userId receiverId content messageType
                               (oid e) (now e))
  | http_sendFriendRequest userId recipientId =>
      forget (Http.sendFriendRequest userId recipientId (oid e))
  | http_acceptFriendRequest userId requestId =>
      forget (Http.acceptFriendRequest (isValid lib) userId requestId)
  | http_rejectFriendRequest userId requestId =>
      forget (Http.rejectFriendRequest (isValid lib) userId requestId)
  | http_removeFriend userId friendId =>
      forget (Http.removeFriend (isValid lib) userId friendId)
  end.

(** Running a handler from a world, with the failures of the environment
    and nothing emitted yet. *)
Definition run {A} (h : Handler A) (w : World) (fl : list (option string))
    : Outcome A * Run :=
  h (mkRun w fl []).

(** One operation run to completion: the world it leaves. *)
Definition step (lib : Lib) (w : World) (eo : Env * Op) : World :=
  world (snd (run (handler_of lib (fst eo) (snd eo)) w (failures (fst eo)))).

(** The events one operation emits. *)
Definition emissions (lib : Lib) (w : World) (eo : Env * Op) : list Emission :=
  emitted (snd (run (handler_of lib (fst eo) (snd eo)) w (failures (fst eo)))).

(** A sequence of operations, one after the other. *)
Definition exec (lib : Lib) (w : World) (ops : list (Env * Op)) : World :=
  List.fold_left (step lib) ops w.

(** ** Handlers suspended at their awaits *)

(** A handler runs synchronously from one await to the next; while it waits
    for the store, the handlers of other events and requests run. To look at
    such interleavings a handler is given as a program whose awaits are
    explicit: the store call it waits for and what it does with the answer. *)
Inductive Prog (A : Type) : Type :=
| Done (a : A)
| Crashed (e : string)
| Await {X : Type} (call : StoreCall X) (k : X → Prog A)
| Emit (dest : string) (ev : Event.t) (k : Prog A)
| Sync (k : World → Prog A).
Arguments Done {A} a.
Arguments Crashed {A} e.
Arguments Await {A X} call k.
Arguments Emit {A} dest ev k.
Arguments Sync {A} k.

(** The handler a program stands for, inside [try { ... } catch (e) { catch e }]. *)
Fixpoint denote {A} (catch : string → Handler A) (p : Prog A) : Handler A :=
  match p with
  | Done a => mret a
  | Crashed e => λ r, (Thrown e, r)
  | Await call k =>
      λ r, match await call r with
           | (Returned x, r') => denote catch (k x) r'
           | (Thrown e, r') => catch e r'
           end
  | Emit dest ev k => λ r, denote catch k (snd (emit dest ev r))
  | Sync k => λ r, denote catch (k (world r)) r
  end.

(** The synchronous code up to the next await, or to the end. *)
Fixpoint settle {A} (p : Prog A) (r : Run) : Prog A * Run :=
  match p with
  | Emit dest ev k => settle k (snd (emit dest ev r))
  | Sync k => settle (k (world r)) r
  | _ => (p, r)
  end.

(** One turn of a suspended handler: the store call it waits for is
    performed, and the handler runs on to its next await or to its end; when
    the call throws, the catch block runs. *)
Definition resume {A} (catch : string → Handler A) (p : Prog A) (r : Run) : Prog A * Run :=
  match p with
  | Await call k =>
      match await call r with
      | (Returned x, r') => settle (k x) r'
      | (Thrown e, r') =>
          match catch e r' with
          | (Returned a, r'') => (Done a, r'')
          | (Thrown e', r'') => (Crashed e', r'')
          end
      end
  | _ => settle p r
  end.

(** Whose turn it is, of two handlers in flight. *)
Inductive Turn := first | second.

(** Two handlers in flight on the same world, resumed in the order of
    [turns]. *)
Fixpoint interleave {A B} (ca : string → Handler A) (cb : string → Handler B)
    (turns : list Turn) (p : Prog A) (q : Prog B) (r : Run) : Prog A * Prog B * Run :=
  match turns with
  | [] => (p, q, r)
  | first :: rest =>
      let '(p', r') := resume ca p r in interleave ca cb rest p' q r'
  | second :: rest =>
      let '(q', r') := resume cb q r in interleave ca cb rest p q' r'
  end.

Module Suspended.
(** The send_message listener of socket/socketHandler.ts. *)
Definition on_send_message (socket_id userId : string) (data : Socket.SendMessageData)
    (oid : string) (now : nat) : Prog unit :=
  let receiverId := Socket.receiverId data in
  let content := Socket.content data in
  let messageType := default Message.text (Socket.messageType data) in
  Await (Db.Friendship_findOne (Socket.accepted_between userId receiverId)) (λ friendship,
  match friendship with
  | None => Emit socket_id (Event.error "Not friends with this user") (Done ())
  | Some _ =>
      Await (Db.Message_create oid userId receiverId content messageType Message.sent now)
        (λ message,
      Await Db.populate (λ _,
      Sync (λ w,
      match onlineUsers w !! receiverId with
      | Some receiverSocketId =>
          if Js.truthy receiverSocketId then
            let message := Message.set_status Message.delivered message in
            Await (Db.Message_save (Message._id message) Message.delivered) (λ _,
            Emit receiverSocketId (Event.receive_message message)
              (Emit socket_id (Event.message_sent message) (Done ())))
          else Emit socket_id (Event.message_sent message) (Done ())
      | None => Emit socket_id (Event.message_sent message) (Done ())
      end)))
  end).

Definition on_send_message_catch (socket_id : string) (e : string) : Handler unit :=
  emit socket_id (Event.error "Failed to send message").

(** [getMessages] of controllers/messageController.ts. *)
Definition getMessages (isValid : string → bool) (userId friendId : string)
    (limit skip : option nat) : Prog Http.Response :=
  let limit := default 50 limit in
  let skip := default 0 skip in
  if negb (isValid friendId) then
    Done (Http.sendError "Invalid friend ID" "Please provide a valid friend ID" 400)
  else
    Await (Db.Friendship_findOne (Socket.accepted_between userId friendId)) (λ friendship,
    match friendship with
    | None => Done (Http.sendError "Not friends" "You can only view messages with friends" 403)
    | Some _ =>
        Await (Db.Message_find_page (Message.between userId friendId) limit skip)
          (λ messages,
        Await (Db.Message_updateMany (Message.unread_from friendId userId) Message.read)
          (λ modifiedCount,
        Done (Http.sendSuccess "Messages retrieved successfully"
                (Http.history (List.rev messages) modifiedCount) 200)))
    end).

Definition getMessages_catch (e : string) : Handler Http.Response :=
  mret (Http.sendError "Failed to retrieve messages" e 500).
End Suspended.

(** ** Vocabulary of the properties *)

(** A Hoare triple on handlers: from a world satisfying [P], the handler
    leaves a world satisfying [Q a] when it returns [a] and [E] when it
    throws, whatever the store failures and the events emitted before. *)
Definition triple {A} (P : World → Prop) (h : Handler A)
    (Q : A → World → Prop) (E : World → Prop) : Prop :=
  ∀ r, P (world r) →
       match h r with
       | (Returned a, r') => Q a (world r')
       | (Thrown _, r') => E (world r')
       end.

(** The handler keeps the invariant [I], also when it throws. *)
Definition preserves {A} (I : World → Prop) (h : Handler A) : Prop :=
  triple I h (λ _, I) I.

(** A store call that keeps [I] whenever it answers. *)
Definition call_preserves {A} (I : World → Prop) (call : StoreCall A) : Prop :=
  ∀ w, I w → match call w with Returned (_, w') => I w' | Thrown _ => True end.

(** The socket ids of the registry are the ids of real sockets: socket.io
    never hands out an empty id. *)
Definition registry_wf (w : World) : Prop :=
  ∀ u s, onlineUsers w !! u = Some s → Js.truthy s = true.

(** The registry entry of [u], when there is one, holds the id of a real
    socket. *)
Definition entry_wf (w : World) (u : string) : Prop :=
  ∀ s, onlineUsers w !! u = Some s → Js.truthy s = true.

(** An accepted relationship between [a] and [b] is stored. *)
Definition friends (w : World) (a b : string) : Prop :=
  ∃ f, f ∈ friendships w ∧ Socket.accepted_between a b f = true.

(** The statuses of the documents of [ms'] are, position by position, those
    of [ms] or later ones in the order sent, delivered, read; no document
    is removed or replaced by another one. *)
Definition advanced (ms ms' : list Message.t) : Prop :=
  ∀ (i : nat) m, ms !! i = Some m →
         ∃ m', ms' !! i = Some m' ∧ Message._id m' = Message._id m
               ∧ (Message.rank (Message.status m) ≤ Message.rank (Message.status m'))%nat.

(** At most one document links [a] and [b], whatever its direction. *)
Definition pair_unique (fs : list Friendship.t) : Prop :=
  ∀ a b, (length (List.filter (Friendship.between a b) fs) ≤ 1)%nat.

(** The statuses the friend controller writes. *)
Definition live_status (f : Friendship.t) : Prop :=
  Friendship.status f = Friendship.pending ∨ Friendship.status f = Friendship.accepted.

(** The relationships hold at most one document for each pair of users,
    and every document is pending or accepted. *)
Definition relationships_tidy (w : World) : Prop :=
  pair_unique (friendships w) ∧ Forall live_status (friendships w).

(** A uniqueness constraint over the pair regardless of direction would
    refuse a document when one links the same two users in either
    direction. *)
Definition undirected_unique_index : Prop :=
  ∀ f fs, existsb (Friendship.between (Friendship.requester f) (Friendship.recipient f)) fs = true →
          Friendship.create f fs = None.



(** What [Message.create] stores for a send_message request. *)
Definition new_message (sender : string) (data : Socket.SendMessageData)
    (oid : string) (now : nat) : Message.t :=
  Message.mk oid sender (Socket.receiverId data) (Js.trim (Socket.content data))
             (default Message.text (Socket.messageType data)) Message.sent now.





(** ** Concrete executions *)

Module Fixture.
(** A stand-in for the verifier: the token ["t:" ++ u] verifies as [u]. *)
Definition verify (t : string) : option Jwt.TokenPayload :=
  match t with
  | String "t" (String ":" u) => Some (Jwt.mk u EmptyString)
  | _ => None
  end.

Definition lib : Lib := mkLib verify (λ _, true).

Definition handshake (u : string) : Socket.Handshake :=
  Socket.mkHandshake (Some ("t:" +:+ u)) None.

Definition alice : User.t := User.mk "a" "alice" User.offline 0.
Definition bob : User.t := User.mk "b" "bob" User.offline 0.

(** Two accounts, no relationship, nobody connected. *)
Definition strangers : World := mkWorld ∅ ∅ [alice; bob] [] [].

(** Two accounts that are friends, nobody connected. *)
Definition friends_offline : World :=
  mkWorld ∅ ∅ [alice; bob] [Friendship.mk "f1" "a" "b" Friendship.accepted] [].

Definition env (n : nat) (id : string) : Env := no_failure n id.

(** Alice connects on s1 and Bob on s9. *)
Definition both_online : World :=
  exec lib friends_offline
    [(env 1 "x", socket_connect (handshake "a") "s1");
     (env 2 "x", socket_connect (handshake "b") "s9")].

(** Alice connects a second time, on s2, with s1 still open. *)
Definition alice_twice : World :=
  step lib both_online (env 3 "x", socket_connect (handshake "a") "s2").

(** Three messages from Bob to Alice, none of them read. *)
Definition three_unread : World :=
  with_messages
    [Message.mk "m1" "b" "a" "one" Message.text Message.sent 1;
     Message.mk "m2" "b" "a" "two" Message.text Message.delivered 2;
     Message.mk "m3" "b" "a" "three" Message.text Message.sent 3]
    friends_offline.
End Fixture.

(** * Properties *)

(** ** Rules of the handler logic *)

Section Rules.
Context {A B : Type}.
Implicit Types (P : World → Prop) (E : World → Prop).

Lemma triple_ret P (a : A) (Q : A → World → Prop) E :
  (∀ w, P w → Q a w) → triple P (mret a) Q E.
Proof. intros H r Hr. simpl. auto. Qed.

Lemma triple_bind P (m : Handler A) (k : A → Handler B) Q1 (Q : B → World → Prop) E :
  triple P m Q1 E → (∀ a, triple (Q1 a) (k a) Q E) → triple P (m ≫= k) Q E.
Proof.
  intros Hm Hk r Hr. unfold mbind, Handler_bind.
  specialize (Hm r Hr). destruct (m r) as [[a|e] r']; [by apply Hk | done].
Qed.

Lemma triple_try_catch P (body : Handler A) handler (Q : A → World → Prop) E1 E :
  triple P body Q E1 → (∀ e, triple E1 (handler e) Q E) →
  triple P (try_catch body handler) Q E.
Proof.
  intros Hb Hh r Hr. unfold try_catch.
  specialize (Hb r Hr). destruct (body r) as [[a|e] r']; [done | by apply Hh].
Qed.

Lemma triple_await P (call : StoreCall A) (Q : A → World → Prop) E :
  (∀ w, P w → E w ∧ match call w with
                     | Returned (a, w') => Q a w'
                     | Thrown _ => True
                     end) →
  triple P (await call) Q E.
Proof.
  intros H r Hr. destruct (H _ Hr) as [HE HQ]. unfold await.
  destruct (faults r) as [|[e|] rest]; simpl;
    try done; destruct (call (world r)) as [[a w']|e']; done.
Qed.

Lemma triple_weaken P P' (h : Handler A) (Q Q' : A → World → Prop) E E' :
  triple P' h Q' E' → (∀ w, P w → P' w) → (∀ a w, Q' a w → Q a w) →
  (∀ w, E' w → E w) → triple P h Q E.
Proof.
  intros H HP HQ HE r Hr. specialize (H r (HP _ Hr)).
  destruct (h r) as [[a|e] r']; auto.
Qed.
End Rules.

Lemma triple_get_world P (Q : World → World → Prop) E :
  (∀ w, P w → Q w w) → triple P get_world Q E.
Proof. intros H r Hr. simpl. auto. Qed.

Lemma triple_modify_world P f (Q : unit → World → Prop) E :
  (∀ w, P w → Q () (f w)) → triple P (modify_world f) Q E.
Proof. intros H r Hr. simpl. auto. Qed.

Lemma triple_emit P dest ev (Q : unit → World → Prop) E :
  (∀ w, P w → Q () w) → triple P (emit dest ev) Q E.
Proof. intros H r Hr. simpl. auto. Qed.

Lemma preserves_forEach {A} (I : World → Prop) (l : list A) body :
  (∀ x, preserves I (body x)) → preserves I (forEach l body).
Proof.
  intros H. induction l as [|x l IH]; simpl.
  - by apply triple_ret.
  - eapply triple_bind; [apply H | intros []; apply IH].
Qed.

Lemma triple_forget {A} P (h : Handler A) (Q : World → Prop) :
  triple P h (λ _, Q) Q → triple P (forget h) (λ _, Q) Q.
Proof.
  intros H r Hr. specialize (H r Hr). unfold forget.
  destruct (h r) as [[a|e] r']; done.
Qed.

Lemma preserves_await {A} I (call : StoreCall A) :
  call_preserves I call → preserves I (await call).
Proof.
  intros H. apply triple_await. intros w Hw. split; [done|].
  specialize (H w Hw). by destruct (call w) as [[a w']|e].
Qed.

Lemma Socket_preserves_push I id ev : preserves I (Socket.push_if_online id ev).
Proof.
  unfold Socket.push_if_online.
  eapply triple_bind; [apply (triple_get_world _ (λ _, I)); auto |].
  intros w. destruct (onlineUsers w !! id) as [s|]; [destruct (Js.truthy s)|];
    (by apply triple_emit) || by apply triple_ret.
Qed.

(** *** Invariants: derived rules and their automation *)

Lemma preserves_ret {A} I (a : A) : preserves I (mret a).
Proof. by apply triple_ret. Qed.

Lemma preserves_bind {A B} I (m : Handler A) (k : A → Handler B) :
  preserves I m → (∀ a, preserves I (k a)) → preserves I (m ≫= k).
Proof. intros Hm Hk. eapply triple_bind; [exact Hm | exact Hk]. Qed.

Lemma preserves_try_catch {A} I (body : Handler A) handler :
  preserves I body → (∀ e, preserves I (handler e)) → preserves I (try_catch body handler).
Proof. intros Hb Hh. eapply triple_try_catch; [exact Hb | exact Hh]. Qed.

Lemma preserves_emit I dest ev : preserves I (emit dest ev).
Proof. by apply triple_emit. Qed.

Lemma preserves_get_world I : preserves I get_world.
Proof. by apply triple_get_world. Qed.

Lemma preserves_modify_world I f : (∀ w, I w → I (f w)) → preserves I (modify_world f).
Proof. intros H. by apply triple_modify_world. Qed.

Lemma preserves_forget {A} I (h : Handler A) : preserves I h → preserves I (forget h).
Proof. apply triple_forget. Qed.

(** Walks through a handler, leaving the store calls and the updates of the
    process-local state to the caller. *)
Ltac walk :=
  repeat first
    [ apply preserves_ret
    | apply preserves_emit
    | apply preserves_get_world
    | apply Socket_preserves_push
    | apply preserves_forget
    | apply preserves_forEach; intros ?
    | apply preserves_try_catch; [| intros ?]
    | apply preserves_bind; [| intros ?]
    | apply preserves_await
    | progress cbv zeta
    | match goal with
      | |- preserves _ (match ?x with _ => _ end) => destruct x
      end ].

Lemma find_none_iff {A} (q : A → bool) (l : list A) :
  List.find q l = None ↔ ∀ x, x ∈ l → q x = false.
Proof.
  split.
  - intros H x Hx. apply (find_none q l H). by apply list_elem_of_In.
  - intros H. induction l as [|y l IH]; [done|]. simpl.
    rewrite (H y) by left. apply IH. intros x Hx. apply H. by right.
Qed.

Lemma not_friends_findOne w a b :
  ¬ friends w a b →
  Friendship.findOne (Socket.accepted_between a b) (friendships w) = None.
Proof.
  intros H. apply find_none_iff. intros f Hf.
  destruct (Socket.accepted_between a b f) eqn:Hq; [|done].
  exfalso. apply H. by exists f.
Qed.

Lemma friends_findOne w a b :
  friends w a b →
  ∃ f, Friendship.findOne (Socket.accepted_between a b) (friendships w) = Some f.
Proof.
  intros (f & Hf & Hq). unfold Friendship.findOne.
  destruct (List.find _ _) as [g|] eqn:Hfind; [by exists g|].
  rewrite (proj1 (find_none_iff _ _) Hfind f Hf) in Hq. done.
Qed.

(** *** The registry under the operations *)

(** Closes the obligation of a store call for an invariant that does not
    read the collections the call writes. *)
Ltac frame_call :=
  let w := fresh "w" in
  let Hw := fresh "Hw" in
  unfold call_preserves; intros w Hw;
  unfold Db.Friendship_findOne, Db.Friendship_find, Db.Friendship_create,
    Db.Friendship_save, Db.Friendship_deleteOne, Db.Friendship_findOneAndDelete,
    Db.Message_create, Db.Message_findById, Db.Message_save, Db.Message_updateMany,
    Db.Message_find_page, Db.populate, Db.User_findById, Db.User_findByIdAndUpdate;
  simpl; repeat case_match; simplify_eq; try exact Hw; try done.

Section RegistryFrame.
Variable J : gmap string string → Prop.
Let frame : World → Prop := λ w, J (onlineUsers w).

Lemma on_send_message_keeps_registry socket_id userId data oid now :
  preserves frame (Socket.on_send_message socket_id userId data oid now).
Proof. unfold Socket.on_send_message. walk; frame_call. Qed.

Lemma on_message_read_keeps_registry userId messageId :
  preserves frame (Socket.on_message_read userId messageId).
Proof. unfold Socket.on_message_read. walk; frame_call. Qed.

Lemma http_keeps_registry lib e op :
  match op with socket_connect _ _ | socket_event _ _ => False | _ => True end →
  preserves frame (handler_of lib e op).
Proof.
  destruct op; try done; intros _; simpl;
    unfold Http.getMessages, Http.sendMessage, Http.sendFriendRequest,
      Http.acceptFriendRequest, Http.rejectFriendRequest, Http.removeFriend;
    walk; frame_call.
Qed.

(** After its first statement the connection handler leaves the registry
    alone; so does the disconnect handler. *)
Lemma on_connection_registry socket_id userId :
  Js.truthy userId = true →
  ∀ reg, triple (λ w, onlineUsers w = reg) (Socket.on_connection socket_id userId)
           (λ _ w, onlineUsers w = <[userId := socket_id]> reg)
           (λ w, onlineUsers w = <[userId := socket_id]> reg).
Proof.
  intros Hu reg. unfold Socket.on_connection. rewrite Hu. simpl.
  eapply triple_bind.
  { apply (triple_modify_world _ _ (λ _ w, onlineUsers w = <[userId := socket_id]> reg)).
    intros w <-. done. }
  intros []. change (preserves (λ w, onlineUsers w = <[userId:=socket_id]> reg)
     (await (Db.User_findByIdAndUpdate userId User.online None) ≫= λ _,
      await (Db.Friendship_find (Socket.accepted_of userId)) ≫= λ friendships,
      forEach (List.map (Socket.friendId userId) friendships)
        (λ friend, Socket.push_if_online friend (Event.user_online userId)) ≫= λ _,
      modify_world (with_listeners
        (insert socket_id (mkClosure userId (List.map (Socket.friendId userId) friendships)))))).
  walk; frame_call.
Qed.

Lemma on_disconnect_registry userId friendIds now :
  ∀ reg, triple (λ w, onlineUsers w = reg) (Socket.on_disconnect userId friendIds now)
           (λ _ w, onlineUsers w = delete userId reg)
           (λ w, onlineUsers w = delete userId reg).
Proof.
  intros reg. unfold Socket.on_disconnect.
  eapply triple_bind.
  { apply (triple_modify_world _ _ (λ _ w, onlineUsers w = delete userId reg)).
    intros w <-. done. }
  intros []. change (preserves (λ w, onlineUsers w = delete userId reg)
     (await (Db.User_findByIdAndUpdate userId User.offline (Some now)) ≫= λ _,
      forEach friendIds (λ friend, Socket.push_if_online friend (Event.user_offline userId)))).
  walk; frame_call.
Qed.
End RegistryFrame.

Lemma triple_world {A} P (h : Handler A) (Q : World → Prop) r :
  triple P h (λ _, Q) Q → P (world r) → Q (world (snd (h r))).
Proof.
  intros H Hr. specialize (H r Hr). by destruct (h r) as [[a|e] r'].
Qed.

(** The registry after one operation: a connection that authenticates
    inserts its pair, a disconnect deletes the entry of the identity of the
    closing connection, nothing else touches it. *)
Lemma step_registry lib w eo :
  onlineUsers (step lib w eo) =
  match snd eo with
  | socket_connect h socket_id =>
      match Socket.authenticate (verifyAccessToken lib) h with
      | Socket.next u =>
          if Js.truthy u then <[u := socket_id]> (onlineUsers w) else onlineUsers w
      | Socket.next_error _ => onlineUsers w
      end
  | socket_event socket_id Socket.disconnect =>
      match listeners w !! socket_id with
      | Some c => delete (userId c) (onlineUsers w)
      | None => onlineUsers w
      end
  | _ => onlineUsers w
  end.
Proof.
  destruct eo as [e op]. unfold step, run. simpl.
  set (r := mkRun w (failures e) []).
  destruct op as [h sid|sid ev| | | | | |];
    try (apply (triple_world (λ w', onlineUsers w' = onlineUsers w));
         [apply (http_keeps_registry (λ reg, reg = onlineUsers w)) |]; done).
  - simpl. unfold forget, Socket.connect. simpl.
    destruct (Socket.authenticate _ h) as [u|msg]; [|done].
    destruct (Js.truthy u) eqn:Hu.
    + unfold mbind, Handler_bind.
      pose proof (triple_world _ _ _ r (on_connection_registry sid u Hu (onlineUsers w)) eq_refl) as H.
      by destruct (Socket.on_connection sid u r) as [[a|err] r'].
    + unfold Socket.on_connection. by rewrite Hu.
  - simpl. unfold forget, Socket.receive, mbind, Handler_bind, get_world. simpl.
    destruct (listeners w !! sid) as [c|] eqn:Hl; [|by destruct ev].
    destruct ev as [data|rid|rid|mid|]; simpl.
    + apply (triple_world (λ w', onlineUsers w' = onlineUsers w)); [|done].
      apply (on_send_message_keeps_registry (λ reg, reg = onlineUsers w)).
    + apply (triple_world (λ w', onlineUsers w' = onlineUsers w)); [|done].
      apply Socket_preserves_push.
    + apply (triple_world (λ w', onlineUsers w' = onlineUsers w)); [|done].
      apply Socket_preserves_push.
    + apply (triple_world (λ w', onlineUsers w' = onlineUsers w)); [|done].
      apply (on_message_read_keeps_registry (λ reg, reg = onlineUsers w)).
    + apply (triple_world (λ w', onlineUsers w' = onlineUsers w)); [|done].
      apply on_disconnect_registry.
Qed.
(** ** The connection gateway *)

(** C7. A connection attempt that carries no bearer credential, or one that
    does not verify, is refused by the middleware with an authentication
    error; the world (presence registry, listeners, accounts, relationships,
    messages) is left as it was and nothing is emitted. *)
Theorem connect_without_valid_credential_is_rejected lib e h socket_id w :
  Js.truthy_opt (Socket.token h) = false
  ∨ Socket.token h ≫= verifyAccessToken lib = None →
  (∃ message,
      fst (run (Socket.connect (verifyAccessToken lib) h socket_id) w (failures e))
        = Returned (Socket.next_error message)
      ∧ (message = "Authentication error: No token provided"
         ∨ message = "Authentication error: Invalid token"))
  ∧ step lib w (e, socket_connect h socket_id) = w
  ∧ emissions lib w (e, socket_connect h socket_id) = [].
Proof.
  intros H. unfold step, emissions, run, handler_of, forget, Socket.connect,
    Socket.authenticate. simpl.
  destruct (Js.truthy_opt (Socket.token h)) eqn:Htok; simpl.
  - destruct H as [H|H]; [done|]. rewrite H. simpl. eauto 6.
  - eauto 6.
Qed.

Lemma connect_without_valid_credential_is_rejected_witness :
  (∃ message,
      fst (run (Socket.connect (verifyAccessToken Fixture.lib)
                  (Socket.mkHandshake None (Some "Bearer forged")) "s3")
               Fixture.both_online (failures (Fixture.env 3 "x")))
        = Returned (Socket.next_error message)
      ∧ (message = "Authentication error: No token provided"
         ∨ message = "Authentication error: Invalid token"))
  ∧ step Fixture.lib Fixture.both_online
      (Fixture.env 3 "x", socket_connect (Socket.mkHandshake None (Some "Bearer forged")) "s3")
    = Fixture.both_online
  ∧ emissions Fixture.lib Fixture.both_online
      (Fixture.env 3 "x", socket_connect (Socket.mkHandshake None (Some "Bearer forged")) "s3")
    = [].
Proof.
  apply (connect_without_valid_credential_is_rejected Fixture.lib (Fixture.env 3 "x")
           (Socket.mkHandshake None (Some "Bearer forged")) "s3" Fixture.both_online).
  right. reflexivity.
Defined.

(** The sockets named by the registry stay real ones as long as the
    connecting sockets are. *)
Lemma registry_wf_step lib w eo :
  registry_wf w →
  (∀ h socket_id, snd eo = socket_connect h socket_id → Js.truthy socket_id = true) →
  registry_wf (step lib w eo).
Proof.
  intros Hwf Hsid u s. rewrite step_registry.
  destruct (snd eo) as [h sid|sid ev| | | | | |] eqn:Hop; try apply Hwf.
  - destruct (Socket.authenticate _ h) as [v|]; [|apply Hwf].
    destruct (Js.truthy v); [|apply Hwf].
    destruct (decide (v = u)) as [->|Hne].
    + rewrite lookup_insert_eq. intros [= <-]. by eapply Hsid.
    + rewrite lookup_insert_ne by done. apply Hwf.
  - destruct ev; try apply Hwf.
    destruct (listeners w !! sid) as [c|]; [|apply Hwf].
    destruct (decide (userId c = u)) as [->|Hne].
    + by rewrite lookup_delete_eq.
    + rewrite lookup_delete_ne by done. apply Hwf.
Qed.

Lemma registry_wf_exec lib ops : ∀ w,
  registry_wf w →
  (∀ e h socket_id, (e, socket_connect h socket_id) ∈ ops → Js.truthy socket_id = true) →
  registry_wf (exec lib w ops).
Proof.
  induction ops as [|eo ops IH]; intros w Hwf Hsid; [done|]. simpl. apply IH.
  - apply registry_wf_step; [done|]. intros h sid Hop.
    apply (Hsid (fst eo) h sid). rewrite <- Hop. destruct eo; left.
  - intros e h sid Hin. apply (Hsid e h sid). by right.
Qed.

Lemma registry_wf_entry w u : registry_wf w → entry_wf w u.
Proof. intros H s Hs. by apply (H u). Qed.

(** C1, as the code has it. The disconnect handler of a connection deletes
    the registry entry of the identity of that connection, whatever socket
    the entry names; the entries of the other identities stay. *)
Theorem disconnect_deletes_entry_of_identity lib e w socket_id c :
  listeners w !! socket_id = Some c →
  onlineUsers (step lib w (e, socket_event socket_id Socket.disconnect))
  = delete (userId c) (onlineUsers w).
Proof. intros Hl. rewrite step_registry. simpl. by rewrite Hl. Qed.

Lemma disconnect_deletes_entry_of_identity_witness :
  onlineUsers (step Fixture.lib Fixture.both_online
                 (Fixture.env 4 "x", socket_event "s9" Socket.disconnect))
  = delete "b" (onlineUsers Fixture.both_online).
Proof.
  exact (disconnect_deletes_entry_of_identity Fixture.lib (Fixture.env 4 "x")
           Fixture.both_online "s9" (mkClosure "b" ["a"]) eq_refl).
Defined.

(** C1, as stated, fails: Alice is connected on s1 and then on s2, so that
    her registry entry names s2; the close of the overwritten connection s1
    removes that entry. *)
Lemma stale_disconnect_removes_current_entry :
  userId <$> listeners Fixture.alice_twice !! "s1" = Some "a"
  ∧ onlineUsers Fixture.alice_twice !! "a" = Some "s2"
  ∧ onlineUsers (step Fixture.lib Fixture.alice_twice
                   (Fixture.env 4 "x", socket_event "s1" Socket.disconnect)) !! "a"
    = None.
Proof. vm_compute. done. Qed.



(** ** The event router: send_message *)

(** C2. When no accepted relationship links the caller and the receiver, a
    send_message event is answered by exactly one error event on the
    caller's own connection; the handler returns, the world is unchanged (no
    message is stored) and no other connection receives anything. This holds
    whether the relationship lookup answers or fails. *)
Theorem send_message_between_strangers_yields_one_error
    w socket_id c data oid now fl :
  listeners w !! socket_id = Some c →
  ¬ friends w (userId c) (Socket.receiverId data) →
  ∃ message,
    run (Socket.receive socket_id (Socket.send_message data) oid now) w fl
    = (Returned (), mkRun w (tail fl) [mkEmission socket_id (Event.error message)]).
Proof.
  intros Hl Hnf. apply not_friends_findOne in Hnf.
  unfold run, Socket.receive, Socket.on_send_message, try_catch, mbind, Handler_bind,
    await, Db.Friendship_findOne. simpl. rewrite Hl. simpl.
  destruct fl as [|[e|] fl]; simpl; rewrite ?Hnf; simpl; eauto.
Qed.

Lemma send_message_between_strangers_yields_one_error_witness :
  ∃ message,
    run (Socket.receive "s1"
           (Socket.send_message (Socket.mkSendMessageData "b" "hi" None)) "m1" 7)
        (exec Fixture.lib Fixture.strangers
           [(Fixture.env 1 "x", socket_connect (Fixture.handshake "a") "s1")]) []
    = (Returned (),
       mkRun (exec Fixture.lib Fixture.strangers
                [(Fixture.env 1 "x", socket_connect (Fixture.handshake "a") "s1")])
             (tail []) [mkEmission "s1" (Event.error message)]).
Proof.
  apply (send_message_between_strangers_yields_one_error _ "s1" (mkClosure "a" [])).
  - reflexivity.
  - intros (f & Hf & _). vm_compute in Hf. inversion Hf.
Defined.

Lemma existsb_false_iff {A} (q : A → bool) (l : list A) :
  existsb q l = false ↔ ∀ x, x ∈ l → q x = false.
Proof.
  induction l as [|y l IH]; simpl.
  - split; [intros _ x Hx; inversion Hx | done].
  - rewrite orb_false_iff, IH. split.
    + intros [Hy Hl] x Hx. apply elem_of_cons in Hx as [->|Hx]; auto.
    + intros H. split; [apply H; left | intros x Hx; apply H; by right].
Qed.

Lemma update_first_app_last {A} (p : A → bool) (f : A → A) (l : list A) (x : A) :
  (∀ y, y ∈ l → p y = false) → p x = true →
  update_first p f (l ++ [x]) = l ++ [f x].
Proof.
  intros Hl Hx. induction l as [|y l IH]; simpl.
  - by rewrite Hx.
  - rewrite (Hl y) by left. f_equal. apply IH. intros z Hz. apply Hl. by right.
Qed.

Lemma find_has_id id ms m :
  Message.findById id ms = Some m → Message._id m = id ∧ m ∈ ms.
Proof.
  intros H. apply find_some in H as [Hin Hid].
  split; [by apply bool_decide_eq_true in Hid | by apply list_elem_of_In].
Qed.

(** C3, as the code has it. Between friends, with a content that is not
    empty once trimmed (the schema requires it), an identifier not yet in the
    collection and a store that does not fail, a send_message event creates
    exactly one message, in status sent. When the
    receiver has an entry in the presence registry the message is then saved
    as delivered and a receive_message event carrying it goes to the
    receiver's registered socket; otherwise it stays sent and nothing goes to
    the receiver. In both cases the message_sent acknowledgement carrying
    the message goes to the caller's own socket. *)
Theorem send_message_between_friends
    w socket_id c data oid now :
  listeners w !! socket_id = Some c →
  friends w (userId c) (Socket.receiverId data) →
  Js.truthy (Js.trim (Socket.content data)) = true →
  (∀ m, m ∈ messages w → Message._id m ≠ oid) →
  entry_wf w (Socket.receiverId data) →
  let doc := new_message (userId c) data oid now in
  let created := with_messages (messages w ++ [doc]) w in
  Message.status doc = Message.sent
  ∧ Db.Message_create oid (userId c) (Socket.receiverId data) (Socket.content data)
      (default Message.text (Socket.messageType data)) Message.sent now w
    = Returned (doc, created)
  ∧ match onlineUsers w !! Socket.receiverId data with
    | Some receiverSocketId =>
        let delivered := Message.set_status Message.delivered doc in
        run (Socket.receive socket_id (Socket.send_message data) oid now) w []
        = (Returned (),
           mkRun (with_messages (messages w ++ [delivered]) w) []
                 [mkEmission receiverSocketId (Event.receive_message delivered);
                  mkEmission socket_id (Event.message_sent delivered)])
    | None =>
        run (Socket.receive socket_id (Socket.send_message data) oid now) w []
        = (Returned (),
           mkRun created [] [mkEmission socket_id (Event.message_sent doc)])
    end.
Proof.
  intros Hl Hfr Hcontent Hfresh Hwf doc created.
  destruct (friends_findOne _ _ _ Hfr) as [f Hf].
  assert (Hex : existsb (Message.has_id oid) (messages w) = false).
  { apply existsb_false_iff. intros m Hm. apply bool_decide_eq_false. by apply Hfresh. }
  assert (Hcreate : Message.create oid (userId c) (Socket.receiverId data)
            (Socket.content data) (default Message.text (Socket.messageType data))
            Message.sent now (messages w) = Some (doc, messages w ++ [doc])).
  { unfold Message.create. by rewrite Hcontent, Hex. }
  split; [done|]. split.
  { unfold Db.Message_create. by rewrite Hcreate. }
  unfold run, Socket.receive, Socket.on_send_message, try_catch, mbind, Handler_bind,
    await, Db.Friendship_findOne, Db.Message_create, get_world. simpl.
  rewrite Hl. simpl. rewrite Hf. simpl. rewrite Hcreate. simpl.
  destruct (onlineUsers w !! Socket.receiverId data) as [s|] eqn:Hs; simpl; [|done].
  rewrite (Hwf _ Hs). simpl.
  unfold Message.save_status, with_messages. simpl.
  rewrite update_first_app_last; [done | | by apply bool_decide_eq_true].
  intros y Hy. apply bool_decide_eq_false. by apply Hfresh.
Qed.

Lemma send_message_between_friends_witness :
  run (Socket.receive "s1" (Socket.send_message (Socket.mkSendMessageData "b" " hi " None))
         "m1" 7) Fixture.both_online []
  = (Returned (),
     mkRun (with_messages
              [Message.mk "m1" "a" "b" "hi" Message.text Message.delivered 7]
              Fixture.both_online) []
       [mkEmission "s9" (Event.receive_message
                           (Message.mk "m1" "a" "b" "hi" Message.text Message.delivered 7));
        mkEmission "s1" (Event.message_sent
                           (Message.mk "m1" "a" "b" "hi" Message.text Message.delivered 7))]).
Proof.
  assert (Hl : listeners Fixture.both_online !! "s1" = Some (mkClosure "a" ["b"]))
    by reflexivity.
  assert (Hfr : friends Fixture.both_online "a" "b").
  { exists (Friendship.mk "f1" "a" "b" Friendship.accepted). split; [left | reflexivity]. }
  assert (Hfresh : ∀ m, m ∈ messages Fixture.both_online → Message._id m ≠ "m1").
  { intros m Hm. vm_compute in Hm. inversion Hm. }
  assert (Hwf : entry_wf Fixture.both_online "b").
  { intros s Hs. vm_compute in Hs. by inversion Hs. }
  exact (proj2 (proj2 (send_message_between_friends Fixture.both_online "s1"
    (mkClosure "a" ["b"]) (Socket.mkSendMessageData "b" " hi " None) "m1" 7
    Hl Hfr eq_refl Hfresh Hwf))).
Defined.

(** C3, as stated, fails: a message is not always created between friends.
    Alice (s1) sends Bob, her friend, a content of two spaces. The schema
    trims the content and requires it, the creation is refused, and the catch
    block answers Alice with an error: no message is stored, Bob receives
    nothing and Alice gets no message_sent acknowledgement. *)
Lemma blank_message_between_friends_is_refused :
  friends Fixture.both_online "a" "b"
  ∧ onlineUsers Fixture.both_online !! "b" = Some "s9"
  ∧ run (Socket.receive "s1" (Socket.send_message (Socket.mkSendMessageData "b" "  " None))
           "m1" 7) Fixture.both_online []
    = (Returned (),
       mkRun Fixture.both_online [] [mkEmission "s1" (Event.error "Failed to send message")]).
Proof.
  split; [|split; reflexivity].
  exists (Friendship.mk "f1" "a" "b" Friendship.accepted). split; [left | reflexivity].
Qed.

(** The same holds of every content that trims to nothing, whatever the
    receiver's presence: a no-break space (bytes C2 A0) for one. *)
Lemma blank_content_is_refused w socket_id c data oid now :
  listeners w !! socket_id = Some c →
  friends w (userId c) (Socket.receiverId data) →
  Js.truthy (Js.trim (Socket.content data)) = false →
  run (Socket.receive socket_id (Socket.send_message data) oid now) w []
  = (Returned (), mkRun w [] [mkEmission socket_id (Event.error "Failed to send message")]).
Proof.
  intros Hl Hfr Hblank. destruct (friends_findOne _ _ _ Hfr) as [f Hf].
  unfold run, Socket.receive, Socket.on_send_message, try_catch, mbind, Handler_bind,
    await, Db.Friendship_findOne, Db.Message_create, Message.create. simpl.
  rewrite Hl. simpl. rewrite Hf. simpl. by rewrite Hblank.
Qed.

Example no_break_space_is_blank :
  Js.trim (String (ascii_of_nat 194) (String (ascii_of_nat 160) EmptyString)) = EmptyString
  ∧ Js.trim (String (ascii_of_nat 32) (String (ascii_of_nat 226) (String (ascii_of_nat 128)
       (String (ascii_of_nat 168) "hi"))))
    = "hi".
Proof. split; reflexivity. Qed.

(** ** The event router: message_read *)

(** C9. With a store that does not fail, a message_read event for a stored
    message whose receiver is the caller saves the message with status read,
    and pushes a message_read event carrying the identifier to the socket
    registered for the sender of the message exactly when the sender has a
    registry entry; nothing else is emitted and nothing else changes. *)
Theorem message_read_by_receiver w socket_id c messageId message oid now :
  listeners w !! socket_id = Some c →
  Message.findById messageId (messages w) = Some message →
  Message.receiver message = userId c →
  entry_wf w (Message.sender message) →
  let w' := with_messages (Message.save_status messageId Message.read (messages w)) w in
  Message.findById messageId (messages w') = Some (Message.set_status Message.read message)
  ∧ run (Socket.receive socket_id (Socket.message_read messageId) oid now) w []
    = (Returned (),
       mkRun w' []
         match onlineUsers w !! Message.sender message with
         | Some senderSocketId => [mkEmission senderSocketId (Event.message_read messageId)]
         | None => []
         end).
Proof.
  intros Hl Hfind Hrecv Hwf w'.
  destruct (find_has_id _ _ _ Hfind) as [Hid _]. split.
  - unfold w', Message.findById, Message.save_status, Message.findById in *. simpl.
    clear -Hfind. induction (messages w) as [|m ms IH]; [done|]. simpl in *.
    destruct (Message.has_id messageId m) eqn:Hm.
    + inversion Hfind; subst. simpl. unfold Message.has_id in *. simpl. by rewrite Hm.
    + simpl. rewrite Hm. by apply IH.
  - unfold run, Socket.receive, Socket.on_message_read, Socket.push_if_online,
      try_catch, mbind, Handler_bind, await, Db.Message_findById, get_world. simpl.
    rewrite Hl. simpl. rewrite Hfind. simpl. rewrite Hrecv, bool_decide_eq_true_2 by done.
    simpl. rewrite Hid.
    destruct (onlineUsers w !! Message.sender message) as [s|] eqn:Hs; simpl; [|done].
    by rewrite (Hwf _ Hs).
Qed.

Lemma message_read_by_receiver_witness :
  let w := step Fixture.lib Fixture.both_online
             (Fixture.env 7 "m1", socket_event "s1"
                (Socket.send_message (Socket.mkSendMessageData "b" "hi" None))) in
  run (Socket.receive "s9" (Socket.message_read "m1") "x" 8) w []
  = (Returned (),
     mkRun (with_messages [Message.mk "m1" "a" "b" "hi" Message.text Message.read 7] w) []
           [mkEmission "s1" (Event.message_read "m1")]).
Proof.
  intros w.
  assert (Hwf : entry_wf w "a").
  { intros s Hs. vm_compute in Hs. by inversion Hs. }
  exact (proj2 (message_read_by_receiver w "s9" (mkClosure "b" ["a"]) "m1"
           (Message.mk "m1" "a" "b" "hi" Message.text Message.delivered 7) "x" 8
           eq_refl eq_refl eq_refl Hwf)).
Defined.

(** The catch block of send_message answers a store failure with an error
    event on the caller's socket: here the failure of the relationship
    lookup. *)
Lemma send_message_lookup_failure_is_reported w socket_id c data oid now e rest :
  listeners w !! socket_id = Some c →
  run (Socket.receive socket_id (Socket.send_message data) oid now) w (Some e :: rest)
  = (Returned (),
     mkRun w rest [mkEmission socket_id (Event.error "Failed to send message")]).
Proof.
  intros Hl. unfold run, Socket.receive, Socket.on_send_message, try_catch, mbind,
    Handler_bind, await, get_world. simpl. by rewrite Hl.
Qed.

(** Neither handler lets an exception escape. *)
Lemma try_catch_returns {A} (body : Handler A) handler r :
  (∀ e r1, ∃ a r2, handler e r1 = (Returned a, r2)) →
  ∃ a r', try_catch body handler r = (Returned a, r').
Proof.
  intros H. unfold try_catch. destruct (body r) as [[a|e] r']; eauto.
Qed.

Lemma on_send_message_returns socket_id userId data oid now r :
  ∃ a r', Socket.on_send_message socket_id userId data oid now r = (Returned a, r').
Proof. apply try_catch_returns. intros e r1. simpl. eauto. Qed.

Lemma on_message_read_returns userId messageId r :
  ∃ a r', Socket.on_message_read userId messageId r = (Returned a, r').
Proof. apply try_catch_returns. intros e r1. simpl. eauto. Qed.

(** C6. A message_read event whose message lookup fails in the store: the
    exception is caught, the handler returns, and nothing at all is emitted,
    so the caller receives no error event. *)
Theorem message_read_failure_emits_nothing w socket_id c messageId oid now e rest :
  listeners w !! socket_id = Some c →
  run (Socket.receive socket_id (Socket.message_read messageId) oid now) w (Some e :: rest)
  = (Returned (), mkRun w rest []).
Proof.
  intros Hl. unfold run, Socket.receive, Socket.on_message_read, try_catch, mbind,
    Handler_bind, await, get_world. simpl. by rewrite Hl.
Qed.

Lemma message_read_failure_emits_nothing_witness :
  run (Socket.receive "s9" (Socket.message_read "m1") "x" 8) Fixture.both_online
      [Some "MongoNetworkError"]
  = (Returned (), mkRun Fixture.both_online [] []).
Proof.
  exact (message_read_failure_emits_nothing Fixture.both_online "s9" (mkClosure "b" ["a"])
           "m1" "x" 8 "MongoNetworkError" [] eq_refl).
Defined.

(** The same when the lookup answers and the save fails: the status is not
    persisted and the caller is told nothing. *)
Lemma message_read_save_failure_emits_nothing
    w socket_id c messageId message oid now e rest :
  listeners w !! socket_id = Some c →
  Message.findById messageId (messages w) = Some message →
  Message.receiver message = userId c →
  run (Socket.receive socket_id (Socket.message_read messageId) oid now) w
      (None :: Some e :: rest)
  = (Returned (), mkRun w rest []).
Proof.
  intros Hl Hfind Hrecv. unfold run, Socket.receive, Socket.on_message_read, try_catch,
    mbind, Handler_bind, await, Db.Message_findById, get_world. simpl.
  rewrite Hl. simpl. rewrite Hfind. simpl.
  by rewrite Hrecv, bool_decide_eq_true_2.
Qed.

(** ** Delivery status only moves forward *)

Lemma advanced_refl ms : advanced ms ms.
Proof. intros i m Hm. eauto. Qed.

Lemma advanced_trans ms1 ms2 ms3 :
  advanced ms1 ms2 → advanced ms2 ms3 → advanced ms1 ms3.
Proof.
  intros H12 H23 i m Hm.
  destruct (H12 i m Hm) as (m2 & Hm2 & Hid2 & Hr2).
  destruct (H23 i m2 Hm2) as (m3 & Hm3 & Hid3 & Hr3).
  exists m3. repeat split; [done | congruence | lia].
Qed.

Lemma advanced_app ms l : advanced ms (ms ++ l).
Proof.
  intros i m Hm. exists m. split; [|done]. by apply lookup_app_l_Some.
Qed.

Lemma advanced_cons m m' ms ms' :
  Message._id m' = Message._id m →
  (Message.rank (Message.status m) ≤ Message.rank (Message.status m'))%nat →
  advanced ms ms' → advanced (m :: ms) (m' :: ms').
Proof.
  intros Hid Hr H [|i] x Hx; simpl in *.
  - inversion Hx; subst. eauto.
  - by apply H.
Qed.

Lemma rank_le_read st : (Message.rank st ≤ Message.rank Message.read)%nat.
Proof. destruct st; simpl; lia. Qed.

Lemma advanced_update_first q st ms :
  (∀ m, m ∈ ms → q m = true →
        (Message.rank (Message.status m) ≤ Message.rank st)%nat) →
  advanced ms (update_first q (Message.set_status st) ms).
Proof.
  induction ms as [|m ms IH]; intros H; simpl; [apply advanced_refl|].
  destruct (q m) eqn:Hq.
  - apply advanced_cons; [done | | apply advanced_refl]. simpl. apply H; [left | done].
  - apply advanced_cons; [done | done |]. apply IH. intros x Hx. apply H. by right.
Qed.

Lemma advanced_update_all q st ms :
  (∀ m, m ∈ ms → q m = true →
        (Message.rank (Message.status m) ≤ Message.rank st)%nat) →
  advanced ms (update_all q (Message.set_status st) ms).
Proof.
  induction ms as [|m ms IH]; intros H; simpl; [apply advanced_refl|].
  apply advanced_cons.
  - by destruct (q m).
  - destruct (q m) eqn:Hq; [|done]. simpl. apply H; [left | done].
  - apply IH. intros x Hx. apply H. by right.
Qed.

Section Forward.
Variable ms0 : list Message.t.
Let forward : World → Prop := λ w, advanced ms0 (messages w).

Lemma save_read_forward id :
  call_preserves forward (Db.Message_save id Message.read).
Proof.
  intros w Hw. simpl. eapply advanced_trans; [exact Hw|].
  apply advanced_update_first. intros. apply rank_le_read.
Qed.

Lemma updateMany_read_forward q :
  call_preserves forward (Db.Message_updateMany q Message.read).
Proof.
  intros w Hw. simpl. eapply advanced_trans; [exact Hw|].
  apply advanced_update_all. intros. apply rank_le_read.
Qed.

Lemma create_forward id a b text ty st now :
  call_preserves forward (Db.Message_create id a b text ty st now).
Proof.
  intros w Hw. unfold Db.Message_create, Message.create.
  repeat case_match; simplify_eq; try done. simpl.
  eapply advanced_trans; [exact Hw | apply advanced_app].
Qed.

(** Between its creation and the save as delivered the new message is the
    last document, the only one with its identifier, in status sent. *)
Lemma on_send_message_forward socket_id userId data oid now :
  preserves forward (Socket.on_send_message socket_id userId data oid now).
Proof.
  unfold Socket.on_send_message. cbv zeta.
  apply preserves_try_catch; [|intros e; apply preserves_emit].
  apply preserves_bind; [apply preserves_await; frame_call|].
  intros [f|]; [|apply preserves_emit].
  set (fresh := λ (doc : Message.t) (w : World),
         ∃ ms, advanced ms0 ms ∧ messages w = ms ++ [doc]
               ∧ Message.status doc = Message.sent
               ∧ ∀ y, y ∈ ms → Message.has_id (Message._id doc) y = false).
  eapply (triple_bind _ _ _ fresh).
  { apply triple_await. intros w Hw. split; [done|].
    unfold Db.Message_create, Message.create.
    destruct (negb _); [done|].
    destruct (existsb _ _) eqn:Hex; [done|]. simpl.
    exists (messages w). repeat split; try done.
    by apply existsb_false_iff. }
  intros doc. eapply (triple_bind _ _ _ (λ _, fresh doc)).
  { apply triple_await. intros w (ms & Hadv & Hms & Hst & Hfresh). split.
    - unfold forward. rewrite Hms. eapply advanced_trans; [exact Hadv | apply advanced_app].
    - simpl. by exists ms. }
  intros []. eapply (triple_bind _ _ _ (λ _, fresh doc)).
  { by apply triple_get_world. }
  assert (Hweak : ∀ w, fresh doc w → forward w).
  { intros w (ms & Hadv & Hms & _). unfold forward. rewrite Hms.
    eapply advanced_trans; [exact Hadv | apply advanced_app]. }
  intros w1. eapply (triple_bind _ _ _ (λ _, forward)); [|intros m; by apply triple_emit].
  destruct (onlineUsers w1 !! Socket.receiverId data) as [s|];
    [destruct (Js.truthy s)|]; try (apply triple_ret; exact Hweak).
  eapply (triple_bind _ _ _ (λ _, forward)).
  - apply triple_await. intros w (ms & Hadv & Hms & Hst & Hfresh).
    split; [apply Hweak; by exists ms|]. simpl.
    unfold Message.save_status. rewrite Hms.
    rewrite update_first_app_last; [| exact Hfresh | by apply bool_decide_eq_true].
    eapply advanced_trans; [exact Hadv | apply advanced_app].
  - intros []. eapply (triple_bind _ _ _ (λ _, forward)); [by apply triple_emit|].
    intros []. by apply triple_ret.
Qed.

Lemma on_message_read_forward userId messageId :
  preserves forward (Socket.on_message_read userId messageId).
Proof.
  unfold Socket.on_message_read. walk; try apply save_read_forward; frame_call.
Qed.

Lemma handler_of_forward lib e op : preserves forward (handler_of lib e op).
Proof.
  destruct op as [h sid|sid ev| | | | | |]; simpl.
  - unfold Socket.connect, Socket.on_connection. walk;
      try (apply preserves_modify_world; intros w Hw; exact Hw); frame_call.
  - unfold Socket.receive. apply preserves_forget.
    apply preserves_bind; [apply preserves_get_world|]. intros w1.
    destruct (listeners w1 !! sid) as [c|]; [|apply preserves_ret].
    destruct ev.
    + apply on_send_message_forward.
    + apply Socket_preserves_push.
    + apply Socket_preserves_push.
    + apply on_message_read_forward.
    + unfold Socket.on_disconnect. walk;
        try (apply preserves_modify_world; intros w Hw; exact Hw); frame_call.
  - unfold Http.getMessages. walk; try apply updateMany_read_forward; frame_call.
  - unfold Http.sendMessage. walk; try apply create_forward; frame_call.
  - unfold Http.sendFriendRequest. walk; frame_call.
  - unfold Http.acceptFriendRequest. walk; frame_call.
  - unfold Http.rejectFriendRequest. walk; frame_call.
  - unfold Http.removeFriend. walk; frame_call.
Qed.
End Forward.

Lemma step_forward lib w eo : advanced (messages w) (messages (step lib w eo)).
Proof.
  unfold step, run.
  apply (triple_world (λ w', advanced (messages w) (messages w'))).
  - apply handler_of_forward.
  - apply advanced_refl.
Qed.

Lemma exec_forward lib ops : ∀ w, advanced (messages w) (messages (exec lib w ops)).
Proof.
  induction ops as [|eo ops IH]; intros w; simpl.
  - apply advanced_refl.
  - eapply advanced_trans; [apply step_forward | apply IH].
Qed.


(** In particular a message that is read stays read, and one that is
    delivered is never sent again. *)
Corollary read_stays_read lib ops w (i : nat) m :
  messages w !! i = Some m → Message.status m = Message.read →
  ∃ m', messages (exec lib w ops) !! i = Some m' ∧ Message.status m' = Message.read.
Proof.
  intros Hm Hst. destruct (exec_forward lib ops w i m Hm) as (m' & Hm' & _ & Hr).
  exists m'. split; [done|]. rewrite Hst in Hr. destruct (Message.status m'); simpl in Hr; done || lia.
Qed.

(** ** Interleaved handlers *)

Lemma denote_settle {A} (catch : string → Handler A) (p : Prog A) : ∀ r,
  denote catch p r = denote catch (fst (settle p r)) (snd (settle p r)).
Proof.
  induction p as [a|e|X call k IH|dest ev k IH|k IH]; intros r; simpl; done.
Qed.

(** Resuming a suspended handler turn after turn is running it: a turn
    followed by the rest of the handler is the handler. *)
Lemma denote_resume {A} (catch : string → Handler A) (p : Prog A) r :
  denote catch p r = denote catch (fst (resume catch p r)) (snd (resume catch p r)).
Proof.
  destruct p as [a|e|X call k|dest ev k|k]; try apply denote_settle.
  simpl. destruct (await call r) as [[x|e] r'].
  - apply denote_settle.
  - by destruct (catch e r') as [[a|e'] r''].
Qed.

(** The programs are the handlers. *)
Lemma suspended_on_send_message socket_id userId data oid now r :
  denote (Suspended.on_send_message_catch socket_id)
         (Suspended.on_send_message socket_id userId data oid now) r
  = Socket.on_send_message socket_id userId data oid now r.
Proof.
  unfold Suspended.on_send_message, Socket.on_send_message, try_catch,
    Suspended.on_send_message_catch. simpl. unfold mbind, Handler_bind.
  destruct (await (Db.Friendship_findOne _) r) as [[[f|]|e] r1]; simpl; try done.
  destruct (await (Db.Message_create _ _ _ _ _ _ _) r1) as [[m|e] r2]; simpl; try done.
  destruct (await Db.populate r2) as [[[]|e] r3]; simpl; try done.
  destruct (onlineUsers (world r3) !! Socket.receiverId data) as [s|]; simpl; try done.
  destruct (Js.truthy s); simpl; try done.
  destruct (await (Db.Message_save _ _) r3) as [[[]|e] r4]; simpl; done.
Qed.

Lemma suspended_getMessages isValid userId friendId limit skip r :
  denote Suspended.getMessages_catch
         (Suspended.getMessages isValid userId friendId limit skip) r
  = Http.getMessages isValid userId friendId limit skip r.
Proof.
  unfold Suspended.getMessages, Http.getMessages, try_catch, Suspended.getMessages_catch.
  destruct (negb (isValid friendId)); simpl; [done|]. unfold mbind, Handler_bind.
  destruct (await (Db.Friendship_findOne _) r) as [[[f|]|e] r1]; simpl; try done.
  destruct (await (Db.Message_find_page _ _ _) r1) as [[page|e] r2]; simpl; try done.
  destruct (await (Db.Message_updateMany _ _) r2) as [[n|e] r3]; simpl; done.
Qed.


(** Both handlers have then run to their end. *)
Example interleaved_handlers_finish :
  fst (interleave (Suspended.on_send_message_catch "s1") Suspended.getMessages_catch
         [second; second; first; first; second; first; first]
         (Suspended.on_send_message "s1" "a" (Socket.mkSendMessageData "b" "hi" None) "m1" 7)
         (Suspended.getMessages (isValid Fixture.lib) "b" "a" None None)
         (mkRun Fixture.both_online [] []))
  = (Done (),
     Done (Http.sendSuccess "Messages retrieved successfully" (Http.history [] 1) 200)).
Proof. vm_compute. reflexivity. Qed.

(** ** One relationship for a pair of users *)

Lemma between_same_pair a b f g :
  Friendship.between a b f = true → Friendship.between a b g = true →
  Friendship.between (Friendship.requester f) (Friendship.recipient f) g = true.
Proof.
  unfold Friendship.between, Friendship.directed.
  rewrite !orb_true_iff, !andb_true_iff, !bool_decide_eq_true.
  intros [[<- <-]|[<- <-]] [[? ?]|[? ?]]; auto.
Qed.

Lemma filter_nil_iff {A} (q : A → bool) (l : list A) :
  (∀ x, x ∈ l → q x = false) → List.filter q l = [].
Proof.
  induction l as [|y l IH]; intros H; simpl; [done|].
  rewrite (H y) by left. apply IH. intros x Hx. apply H. by right.
Qed.

Lemma pair_unique_app fs f :
  pair_unique fs →
  (∀ g, g ∈ fs →
        Friendship.between (Friendship.requester f) (Friendship.recipient f) g = false) →
  pair_unique (fs ++ [f]).
Proof.
  intros Hu Hnone a b. rewrite List.filter_app, length_app. simpl.
  destruct (Friendship.between a b f) eqn:Hf; simpl; [|specialize (Hu a b); lia].
  rewrite filter_nil_iff; [simpl; lia|]. intros g Hg.
  destruct (Friendship.between a b g) eqn:Hgq; [|done].
  rewrite <- (Hnone g Hg). symmetry. by eapply between_same_pair.
Qed.

Lemma filter_update_first_length {A} (q p : A → bool) (f : A → A) (l : list A) :
  (∀ x, q (f x) = q x) →
  length (List.filter q (update_first p f l)) = length (List.filter q l).
Proof.
  intros Hq. induction l as [|x l IH]; simpl; [done|].
  destruct (p x); simpl.
  - rewrite Hq. by destruct (q x).
  - destruct (q x); simpl; by rewrite IH.
Qed.

Lemma filter_remove_first_length {A} (q p : A → bool) (l : list A) :
  (length (List.filter q (remove_first p l)) ≤ length (List.filter q l))%nat.
Proof.
  induction l as [|x l IH]; simpl; [done|].
  destruct (p x); simpl.
  - destruct (q x); simpl; lia.
  - destruct (q x); simpl; lia.
Qed.

Lemma Forall_update_first {A} (P : A → Prop) (p : A → bool) (f : A → A) (l : list A) :
  (∀ x, P (f x)) → Forall P l → Forall P (update_first p f l).
Proof.
  intros Hf. induction 1 as [|x l Hx Hl IH]; simpl; [done|].
  destruct (p x); constructor; auto.
Qed.

Lemma Forall_remove_first {A} (P : A → Prop) (p : A → bool) (l : list A) :
  Forall P l → Forall P (remove_first p l).
Proof.
  induction 1 as [|x l Hx Hl IH]; simpl; [done|].
  destruct (p x); [done | by constructor].
Qed.

Lemma triple_false {A} P (h : Handler A) Q E : (∀ w, ¬ P w) → triple P h Q E.
Proof. intros H r Hr. by destruct (H _ Hr). Qed.

Section Pairs.
Let tidy : World → Prop := relationships_tidy.

Lemma save_accepted_tidy id : call_preserves tidy (Db.Friendship_save id Friendship.accepted).
Proof.
  intros w [Hu Hl]. split; simpl.
  - intros a b. unfold Friendship.save_status.
    rewrite filter_update_first_length; [apply Hu | done].
  - apply Forall_update_first; [by right | done].
Qed.

Lemma deleteOne_tidy q : call_preserves tidy (Db.Friendship_deleteOne q).
Proof.
  intros w [Hu Hl]. split; simpl.
  - intros a b. etrans; [apply filter_remove_first_length | apply Hu].
  - by apply Forall_remove_first.
Qed.

Lemma findOneAndDelete_tidy q : call_preserves tidy (Db.Friendship_findOneAndDelete q).
Proof. exact (deleteOne_tidy q). Qed.

(** The request is stored only when the lookup in both directions found
    nothing: among documents that are pending or accepted, a document that
    is found ends the handler. *)
Lemma sendFriendRequest_tidy requesterId recipientId oid :
  preserves tidy (Http.sendFriendRequest requesterId recipientId oid).
Proof.
  unfold Http.sendFriendRequest.
  apply preserves_try_catch; [|intros e; apply preserves_ret].
  destruct (negb _); [apply preserves_ret|].
  destruct (bool_decide _); [apply preserves_ret|].
  apply preserves_bind; [apply preserves_await; frame_call|].
  intros [u|]; [|apply preserves_ret].
  set (found := λ (x : option Friendship.t) (w : World),
         tidy w ∧ x = Friendship.findOne (Friendship.between requesterId recipientId)
                        (friendships w)).
  eapply (triple_bind _ _ _ found).
  { apply triple_await. intros w Hw. split; [done|]. simpl. by split. }
  intros existing. cbv zeta.
  assert (Hcreate : triple (found None)
            (await (Db.Friendship_create
                      (Friendship.mk oid requesterId recipientId Friendship.pending))
             ≫= λ friendship, await Db.populate ≫= λ _,
                mret (Http.sendSuccess "Friend request sent"
                                       (Http.friendship_data friendship) 201))
            (λ _, tidy) tidy).
  { eapply (triple_bind _ _ _ (λ _, tidy)).
    - apply triple_await. intros w [[Hu Hl] Hnone]. split; [done|].
      unfold Db.Friendship_create, Friendship.create. simpl.
      repeat case_match; simplify_eq; try done. split; simpl.
      + apply pair_unique_app; [done|]. simpl.
        by apply find_none_iff.
      + apply Forall_app. split; [done|]. constructor; [by left | done].
    - intros f. walk. frame_call. }
  destruct existing as [ex|]; [|exact Hcreate].
  assert (Hlive : ∀ w, found (Some ex) w → live_status ex).
  { intros w [[_ Hl] Hfind]. symmetry in Hfind. apply find_some in Hfind as [Hin _].
    apply list_elem_of_In in Hin. by eapply Forall_forall in Hl. }
  destruct (Friendship.status ex) eqn:Hst;
    try (apply triple_ret; by intros w [Hw _]);
    apply triple_false; intros w Hw; destruct (Hlive w Hw); congruence.
Qed.

Lemma handler_of_tidy lib e op : preserves tidy (handler_of lib e op).
Proof.
  destruct op as [h sid|sid ev| | | | | |]; simpl.
  - unfold Socket.connect, Socket.on_connection. walk;
      try (apply preserves_modify_world; intros w Hw; exact Hw); frame_call.
  - unfold Socket.receive. apply preserves_forget.
    apply preserves_bind; [apply preserves_get_world|]. intros w1.
    destruct (listeners w1 !! sid) as [c|]; [|apply preserves_ret].
    destruct ev; simpl;
      unfold Socket.on_send_message, Socket.on_typing, Socket.on_stop_typing,
        Socket.on_message_read, Socket.on_disconnect;
      walk; try (apply preserves_modify_world; intros w Hw; exact Hw); frame_call.
  - unfold Http.getMessages. walk; frame_call.
  - unfold Http.sendMessage. walk; frame_call.
  - apply preserves_forget, sendFriendRequest_tidy.
  - unfold Http.acceptFriendRequest. walk; try apply save_accepted_tidy; frame_call.
  - unfold Http.rejectFriendRequest. walk; try apply deleteOne_tidy; frame_call.
  - unfold Http.removeFriend. walk; try apply findOneAndDelete_tidy; frame_call.
Qed.
End Pairs.

Lemma exec_tidy lib ops : ∀ w,
  relationships_tidy w → relationships_tidy (exec lib w ops).
Proof.
  induction ops as [|eo ops IH]; intros w Hw; [done|]. simpl. apply IH.
  unfold step, run. apply (triple_world relationships_tidy); [|done].
  apply handler_of_tidy.
Qed.

Lemma two_in_filter {A} (q : A → bool) (l : list A) x y :
  x ∈ l → y ∈ l → x ≠ y → q x = true → q y = true →
  (2 ≤ length (List.filter q l))%nat.
Proof.
  induction l as [|z l IH]; intros Hx Hy Hne Hqx Hqy; [inversion Hx|].
  apply elem_of_cons in Hx, Hy. simpl.
  assert (Hone : ∀ v, v ∈ l → q v = true → (1 ≤ length (List.filter q l))%nat).
  { clear. intros v Hv Hq. induction l as [|u l IH]; [inversion Hv|].
    simpl. apply elem_of_cons in Hv as [->|Hv].
    - rewrite Hq. simpl. lia.
    - destruct (q u); simpl; [lia | auto]. }
  destruct Hx as [->|Hx], Hy as [->|Hy]; try done.
  - rewrite Hqx. simpl. specialize (Hone y Hy Hqy). lia.
  - rewrite Hqy. simpl. specialize (Hone x Hx Hqx). lia.
  - specialize (IH Hx Hy Hne Hqx Hqy). destruct (q z); simpl; lia.
Qed.

(** C5, as the code has it. Starting from relationships that hold at most
    one document for each pair of users, all pending or accepted (the empty
    collection for one), every sequence of operations run one after the
    other leaves at most one document for each pair, whatever its direction:
    no store reached holds a document from [a] to [b] together with one from
    [b] to [a]. The request handler ensures it by its lookup in both
    directions; the index of the collection covers one direction only. *)
Theorem one_relationship_per_pair lib ops w :
  relationships_tidy w →
  pair_unique (friendships (exec lib w ops))
  ∧ ∀ a b f g, a ≠ b →
      f ∈ friendships (exec lib w ops) → g ∈ friendships (exec lib w ops) →
      Friendship.directed a b f = true → Friendship.directed b a g = true → False.
Proof.
  intros Hw. destruct (exec_tidy lib ops w Hw) as [Hu _]. split; [exact Hu|].
  intros a b f g Hab Hf Hg Hfq Hgq.
  assert (Hne : f ≠ g).
  { intros ->. unfold Friendship.directed in *.
    rewrite andb_true_iff, !bool_decide_eq_true in Hfq, Hgq.
    destruct Hfq as [Hf1 _], Hgq as [Hg1 _]. congruence. }
  assert (Hbf : Friendship.between a b f = true).
  { unfold Friendship.between. by rewrite Hfq. }
  assert (Hbg : Friendship.between a b g = true).
  { unfold Friendship.between. by rewrite Hgq, orb_true_r. }
  pose proof (two_in_filter (Friendship.between a b) _ f g Hf Hg Hne Hbf Hbg) as H2.
  specialize (Hu a b). lia.
Qed.

Lemma one_relationship_per_pair_witness :
  let ops := [(Fixture.env 1 "f1", http_sendFriendRequest "a" "b");
              (Fixture.env 2 "f2", http_sendFriendRequest "b" "a");
              (Fixture.env 3 "x", http_acceptFriendRequest "b" "f1")] in
  pair_unique (friendships (exec Fixture.lib Fixture.strangers ops))
  ∧ ∀ a b f g, a ≠ b →
      f ∈ friendships (exec Fixture.lib Fixture.strangers ops) →
      g ∈ friendships (exec Fixture.lib Fixture.strangers ops) →
      Friendship.directed a b f = true → Friendship.directed b a g = true → False.
Proof.
  apply (one_relationship_per_pair Fixture.lib _ Fixture.strangers).
  split; [intros a b; simpl; lia | constructor].
Defined.

(** The sequence of the witness does store a relationship: the request of
    Alice is stored and accepted, the request of Bob in the other direction
    is refused by the lookup. *)
Example requests_in_both_directions :
  friendships (exec Fixture.lib Fixture.strangers
                 [(Fixture.env 1 "f1", http_sendFriendRequest "a" "b");
                  (Fixture.env 2 "f2", http_sendFriendRequest "b" "a");
                  (Fixture.env 3 "x", http_acceptFriendRequest "b" "f1")])
  = [Friendship.mk "f1" "a" "b" Friendship.accepted].
Proof. vm_compute. reflexivity. Qed.

(** C5, as stated, fails: the unique index of the collection is over the
    ordered pair (requester, recipient); with a document from a to b stored
    it accepts a document from b to a, and the collection then holds two
    documents for the pair. *)
Lemma index_accepts_reverse_direction :
  let ab := Friendship.mk "f1" "a" "b" Friendship.pending in
  let ba := Friendship.mk "f2" "b" "a" Friendship.pending in
  Friendship.create ba [ab] = Some [ab; ba]
  ∧ ¬ pair_unique [ab; ba]
  ∧ ¬ undirected_unique_index.
Proof.
  intros ab ba. split; [reflexivity|]. split.
  - intros H. specialize (H "a" "b"). vm_compute in H. lia.
  - intros H. specialize (H ba [ab] eq_refl). discriminate H.
Qed.

(** With the earlier rejection handler, which marks the document instead of
    deleting it, the controller itself reaches such a store: Alice asks Bob,
    Bob rejects, Bob asks Alice. *)
Example marking_rejection_leaves_both_directions :
  friendships (world (snd (run
    (Http.sendFriendRequest "a" "b" "f1";;
     Http.rejectFriendRequest_marking (λ _, true) "b" "f1";;
     Http.sendFriendRequest "b" "a" "f2") Fixture.strangers [])))
  = [Friendship.mk "f1" "a" "b" Friendship.rejected;
     Friendship.mk "f2" "b" "a" Friendship.pending].
Proof. vm_compute. reflexivity. Qed.

(** ** The history fetch *)

(** C10. With a valid friend identifier, an accepted relationship and a
    store that does not fail, one history fetch answers with the requested
    page and marks as read every message from the friend to the user that
    was not read yet: the update does not depend on [limit] and [skip], so
    that messages outside the page are marked as well. *)
Theorem getMessages_marks_every_unread_message lib userId friendId limit skip w :
  isValid lib friendId = true →
  friends w userId friendId →
  let w' := with_messages
              (update_all (Message.unread_from friendId userId)
                          (Message.set_status Message.read) (messages w)) w in
  run (Http.getMessages (isValid lib) userId friendId limit skip) w []
  = (Returned
       (Http.sendSuccess "Messages retrieved successfully"
          (Http.history
             (List.rev (Message.find_page (Message.between userId friendId)
                          (default 50 limit) (default 0 skip) (messages w)))
             (length (List.filter (Message.unread_from friendId userId) (messages w))))
          200),
     mkRun w' [] [])
  ∧ (∀ m, m ∈ messages w' → Message.directed friendId userId m = true →
          Message.status m = Message.read)
  ∧ (∀ m, m ∈ messages w → Message.directed friendId userId m = true →
          Message.set_status Message.read m ∈ messages w').
Proof.
  intros Hvalid Hfr w'. destruct (friends_findOne _ _ _ Hfr) as [f Hf].
  split; [|split].
  - unfold run, Http.getMessages, try_catch, mbind, Handler_bind, await,
      Db.Friendship_findOne. simpl. rewrite Hvalid. simpl. rewrite Hf. done.
  - intros m Hm Hdir. simpl in Hm. unfold update_all in Hm.
    apply list_elem_of_In, in_map_iff in Hm as (x & Hx & _).
    unfold Message.unread_from in Hx.
    destruct (Message.directed friendId userId x) eqn:Hdx; simpl in Hx.
    + destruct (bool_decide (Message.status x = Message.read)) eqn:Hst; simpl in Hx; subst m.
      * by apply bool_decide_eq_true in Hst.
      * done.
    + subst m. congruence.
  - intros m Hm Hdir. simpl. unfold update_all.
    apply list_elem_of_In, in_map_iff. exists m. split; [|by apply list_elem_of_In].
    unfold Message.unread_from. rewrite Hdir. simpl.
    destruct (bool_decide (Message.status m = Message.read)) eqn:Hst; simpl; [|done].
    apply bool_decide_eq_true in Hst. destruct m; simpl in *. by subst.
Qed.

Lemma getMessages_marks_every_unread_message_witness :
  run (Http.getMessages (isValid Fixture.lib) "a" "b" (Some 1) None) Fixture.three_unread []
  = (Returned
       (Http.sendSuccess "Messages retrieved successfully"
          (Http.history [Message.mk "m3" "b" "a" "three" Message.text Message.sent 3] 3)
          200),
     mkRun (with_messages
              [Message.mk "m1" "b" "a" "one" Message.text Message.read 1;
               Message.mk "m2" "b" "a" "two" Message.text Message.read 2;
               Message.mk "m3" "b" "a" "three" Message.text Message.read 3]
              Fixture.friends_offline) [] []).
Proof.
  assert (Hfr : friends Fixture.three_unread "a" "b").
  { exists (Friendship.mk "f1" "a" "b" Friendship.accepted). split; [left | reflexivity]. }
  exact (proj1 (getMessages_marks_every_unread_message Fixture.lib "a" "b" (Some 1) None
                  Fixture.three_unread eq_refl Hfr)).
Defined.

(** ** Where the events for an identity go *)





















(** With Alice on s1 and then on s2 and Bob on s9, what Bob types and sends
    reaches s2 only. *)
Example events_for_alice_reach_her_second_socket :
  emissions Fixture.lib Fixture.alice_twice
    (Fixture.env 5 "x", socket_event "s9" (Socket.typing "a"))
  = [mkEmission "s2" (Event.typing "b")]
  ∧ emissions Fixture.lib Fixture.alice_twice
      (Fixture.env 6 "m1", socket_event "s9"
         (Socket.send_message (Socket.mkSendMessageData "a" "hi" None)))
    = [mkEmission "s2" (Event.receive_message
         (Message.mk "m1" "b" "a" "hi" Message.text Message.delivered 6));
       mkEmission "s9" (Event.message_sent
         (Message.mk "m1" "b" "a" "hi" Message.text Message.delivered 6))].
Proof. vm_compute. done. Qed.

